(** * riscos_toolbox.events: handler registry, dispatch and reply correlation

    A shallow embedding of [riscos_toolbox/events.py].  Python dictionaries
    are insertion-ordered association lists, exceptions are an explicit
    result type, and every call of a handler or of a reply callback is
    recorded in a trace, so that "invoked before", "invoked exactly once"
    and "not invoked" are statements about lists. *)

From Stdlib Require Import ZArith Strings.Byte Strings.Ascii.
From stdpp Require Import base strings numbers option list.

Set Default Proof Using "Type".

(** ** Python exceptions and results *)

Inductive exn : Type :=
| RuntimeError (msg : string)
| TypeError (msg : string)
| AttributeError (attr : string)
| KeyError
| IndexError.

Inductive res (A : Type) : Type :=
| Ok (a : A)
| Raise (e : exn).
Arguments Ok {A} a.
Arguments Raise {A} e.

Definition res_bind {A B} (r : res A) (k : A -> res B) : res B :=
  match r with
  | Ok a => k a
  | Raise e => Raise e
  end.

Notation "x <-! r ; k" := (res_bind r (fun x => k))
  (at level 100, r at next level, right associativity).

(** What a handler or a reply callback hands back.  The code tests the
    result with [is not False]: only the object [False] means "carry on";
    [None] (no [return] statement) and every other value stop. *)
Inductive pyresult : Type :=
| RFalse
| RNone
| RValue (v : Z).

Definition is_not_False (r : pyresult) : bool :=
  match r with
  | RFalse => false
  | _ => true
  end.

(** ** Python dictionaries

    A [dict] keeps its keys in insertion order, assigning to an existing key
    keeps the key's position, and [items()] walks the entries in that
    order. *)
Module Dict.
Section Dict.
Context {K V : Type} `{EqDecision K}.

Fixpoint get (k : K) (d : list (K * V)) : option V :=
  match d with
  | [] => None
  | (k', v) :: d' => if decide (k' = k) then Some v else get k d'
  end.

(** [k in d] *)
Definition mem (k : K) (d : list (K * V)) : bool :=
  match get k d with
  | Some _ => true
  | None => false
  end.

(** [d[k] = v] *)
Fixpoint set (k : K) (v : V) (d : list (K * V)) : list (K * V) :=
  match d with
  | [] => [(k, v)]
  | (k', v') :: d' =>
      if decide (k' = k) then (k', v) :: d' else (k', v') :: set k v d'
  end.

(** [del d[k]], a [KeyError] when the key is missing *)
Fixpoint del (k : K) (d : list (K * V)) : res (list (K * V)) :=
  match d with
  | [] => Raise KeyError
  | (k', v') :: d' =>
      if decide (k' = k) then Ok d'
      else d'' <-! del k d'; Ok ((k', v') :: d'')
  end.

Definition keys (d : list (K * V)) : list K := map fst d.

(** Every value stored under [k], by walking the entries: the list has one
    element at most when the keys are distinct. *)
Fixpoint all (k : K) (d : list (K * V)) : list V :=
  match d with
  | [] => []
  | (k', v) :: d' => if decide (k' = k) then v :: all k d' else all k d'
  end.
End Dict.
End Dict.

(** ** Python sets of integers

    [_get_spaa] removes duplicate object ids with [set([...])].  The language
    leaves the iteration order of a set open; the interpreter this library
    runs on (CPython) walks the slots of an open-addressing hash table.  A
    set of at most four keys lives in the initial table of eight slots and
    is never resized; a key starts at slot [hash & 7] and on a collision
    moves to [(5 * i + 1 + perturb) & 7] with [perturb] shifted right by
    five bits each time.  Iteration returns the occupied slots in index
    order. *)
Module PySet.
Local Open Scope Z_scope.

(** Width of [Py_ssize_t] (RISC OS Python is a 32-bit build). *)
Definition ssize_bits : Z := 32.
Definition hash_modulus : Z := 2 ^ (ssize_bits - 1) - 1.

(** [hash(n)] of an [int] *)
Definition hash (n : Z) : Z :=
  let x := Z.abs n mod hash_modulus in
  let h := if n <? 0 then - x else x in
  if h =? -1 then -2 else h.

Definition mask : Z := 7.
Definition PERTURB_SHIFT : Z := 5.

Definition empty : list (option Z) := replicate 8%nat None.

Fixpoint probe (fuel : nat) (key i perturb : Z) (tbl : list (option Z))
  : list (option Z) :=
  match fuel with
  | O => tbl
  | S fuel' =>
      match tbl !! Z.to_nat i with
      | Some (Some k) =>
          if decide (k = key) then tbl
          else
            let perturb' := Z.shiftr perturb PERTURB_SHIFT in
            probe fuel' key (Z.land (i * 5 + 1 + perturb') mask) perturb' tbl
      | _ => <[Z.to_nat i := Some key]> tbl
      end
  end.

Definition add (key : Z) (tbl : list (option Z)) : list (option Z) :=
  let h := hash key in
  probe 64 key (Z.land h mask) (h mod 2 ^ ssize_bits) tbl.

(** [set(l)] for a list of at most four elements *)
Definition of_list (l : list Z) : list (option Z) :=
  fold_left (fun tbl key => add key tbl) l empty.

(** Iterating over the set *)
Definition to_list (tbl : list (option Z)) : list Z := omap id tbl.
End PySet.

(** ** ctypes structures and [Event.from_poll_block] *)

Set Warnings "-register-all".

Inductive ctype : Type :=
| c_uint32
| c_int32
| c_struct (fields : list (string * ctype)).

(** [ctypes.sizeof]: every field is a 32-bit integer or a structure of such,
    so no padding is ever inserted. *)
Fixpoint sizeof (t : ctype) : nat :=
  match t with
  | c_uint32 | c_int32 => 4
  | c_struct fs =>
      (fix total (fs : list (string * ctype)) : nat :=
         match fs with
         | [] => 0
         | (_, ft) :: fs' => sizeof ft + total fs'
         end) fs
  end.

(** A class derived from [Event].  [struct_fields] is [None] when the class
    is not a [ctypes.Structure]; for a structure it lists [_fields_] of the
    whole class chain, base class first. *)
Record pyclass : Type := {
  name : string;
  event_id : option Z;
  struct_fields : option (list (string * ctype))
}.

(** An instance of a structure class: its class and its memory. *)
Record cobj : Type := {
  ob_class : pyclass;
  ob_mem : list byte
}.

Definition from_poll_block (cls : pyclass) (poll_block : list byte) : res cobj :=
  match struct_fields cls with
  | Some fs =>
      let n := sizeof (c_struct fs) in
      if decide (length poll_block < n) then
        Raise (RuntimeError ("not enough data for " +:+ name cls))
      else
        mem <-! fold_left
                  (fun dst b =>
                     dst <-! dst;
                     match poll_block !! b with
                     | Some x => Ok (<[b := x]> dst)
                     | None => Raise IndexError
                     end)
                  (seq 0 n) (Ok (replicate n x00));
        Ok {| ob_class := cls; ob_mem := mem |}
  | None =>
      Raise (RuntimeError ("from_block not implemented for " +:+ name cls))
  end.

(** Reading a field of a structure. *)
Inductive cvalue : Type :=
| VInt (z : Z)
| VStruct (fields : list (string * ctype)) (mem : list byte).

Definition le_uint (bs : list byte) : Z :=
  fold_right (fun b acc => (Z.of_N (Byte.to_N b) + 256 * acc)%Z) 0%Z bs.

Definition le_int32 (bs : list byte) : Z :=
  let u := le_uint bs in
  if (u <? 2 ^ 31)%Z then u else (u - 2 ^ 32)%Z.

(** The descriptor of a field name: a later declaration of a name hides an
    earlier one. *)
Fixpoint find_field (attr : string) (fs : list (string * ctype)) (off : nat)
  : option (nat * ctype) :=
  match fs with
  | [] => None
  | (n, t) :: fs' =>
      match find_field attr fs' (off + sizeof t) with
      | Some r => Some r
      | None => if decide (n = attr) then Some (off, t) else None
      end
  end.

Definition read_value (t : ctype) (mem : list byte) (off : nat) : cvalue :=
  let bs := take (sizeof t) (drop off mem) in
  match t with
  | c_uint32 => VInt (le_uint bs)
  | c_int32 => VInt (le_int32 bs)
  | c_struct fs => VStruct fs bs
  end.

Definition getattr_fields (fs : list (string * ctype)) (mem : list byte)
    (attr : string) : res cvalue :=
  match find_field attr fs 0 with
  | Some (off, t) => Ok (read_value t mem off)
  | None => Raise (AttributeError attr)
  end.

(** [obj.attr] for a field of a structure instance *)
Definition field_of (o : cobj) (attr : string) : res cvalue :=
  match struct_fields (ob_class o) with
  | Some fs => getattr_fields fs (ob_mem o) attr
  | None => Raise (AttributeError attr)
  end.

(** [value.attr] for a field that is itself a structure *)
Definition getattr (v : cvalue) (attr : string) : res cvalue :=
  match v with
  | VStruct fs mem => getattr_fields fs mem attr
  | VInt _ => Raise (AttributeError attr)
  end.

Definition ToolboxEvent_fields : list (string * ctype) :=
  [("size", c_uint32); ("reference_number", c_int32);
   ("event_code", c_uint32); ("flags", c_uint32)].

Definition ToolboxEvent : pyclass :=
  {| name := "ToolboxEvent"; event_id := None;
     struct_fields := Some ToolboxEvent_fields |}.

Definition UserMessage_fields : list (string * ctype) :=
  [("size", c_uint32); ("sender", c_int32); ("my_ref", c_uint32);
   ("your_ref", c_uint32); ("code", c_uint32)].

Section AboutToBeShown.
(** [BBox] and [Point] come from [riscos_toolbox._types]. *)
Variables BBox Point : ctype.

Definition ShowType_Default : Z := 0.
Definition ShowType_FullSpec : Z := 1.
Definition ShowType_TopLeft : Z := 2.
Definition ShowType_Centre : Z := 3.
Definition ShowType_AtPointer : Z := 4.

Definition AboutToBeShownEvent_fields : list (string * ctype) :=
  ToolboxEvent_fields ++
  [("show_type", c_uint32); ("_visible_area", BBox); ("_scroll", Point);
   ("_behind", c_int32); ("_window_flags", c_uint32);
   ("+parent_window_handle", c_int32); ("_alignment_flags", c_uint32)].

Definition AboutToBeShownEvent : pyclass :=
  {| name := "AboutToBeShownEvent"; event_id := None;
     struct_fields := Some AboutToBeShownEvent_fields |}.

(** [get_if(self, value, show_type)]; the caller has evaluated [value]
    already. *)
Definition get_if (self : cobj) (value : cvalue) (show_type : Z)
  : res (option cvalue) :=
  st <-! field_of self "show_type";
  match st with
  | VInt z => Ok (if decide (z = show_type) then Some value else None)
  | VStruct _ _ => Ok None
  end.

Definition top_left (self : cobj) : res (option cvalue) :=
  va <-! field_of self "_visible_area";
  v <-! getattr va "min";
  get_if self v ShowType_TopLeft.

Definition visible_area (self : cobj) : res (option cvalue) :=
  v <-! field_of self "_visible_area";
  get_if self v ShowType_FullSpec.

Definition scroll (self : cobj) : res (option cvalue) :=
  v <-! field_of self "_scroll";
  get_if self v ShowType_FullSpec.

Definition behind (self : cobj) : res (option cvalue) :=
  v <-! field_of self "_behind";
  get_if self v ShowType_FullSpec.

Definition window_flags (self : cobj) : res (option cvalue) :=
  v <-! field_of self "_window_flags";
  get_if self v ShowType_FullSpec.

Definition parent_window_handle (self : cobj) : res (option cvalue) :=
  v <-! field_of self "_parent_window_handle";
  get_if self v ShowType_FullSpec.

Definition alignment_flags (self : cobj) : res (option cvalue) :=
  v <-! field_of self "_alignment_flags";
  get_if self v ShowType_FullSpec.
End AboutToBeShown.

(** ** Handlers and the registries *)

(** The id block of an event ([riscos_toolbox] fills it in on every poll). *)
Record IdEntry : Type := { obj_id : Z; component : Z }.
Record IdBlock : Type := {
  ib_self : IdEntry;
  ib_parent : IdEntry;
  ib_ancestor : IdEntry
}.

(** What a handler receives as its last argument: the raw poll block, or the
    structure decoded from it. *)
Inductive pydata : Type :=
| Raw (poll_block : list byte)
| Decoded (o : cobj).

(** A handler is a Python function: its [__qualname__] and what it returns
    when called as [handler(self, event, id_block, data)]; [self] is given
    by the name of the receiving object.  Effects of a handler other than
    its result are not tracked. *)
Record handler : Type := {
  qualname : string;
  run : string -> Z -> IdBlock -> pydata -> pyresult
}.

(** A value stored in a registry under event, class and component:
    [_add_handler] writes the pair [(handler, event_type)] when it creates
    the dictionary of a class, and the function alone when the class has a
    dictionary already. *)
Inductive reg_entry : Type :=
| Pair (h : handler) (event_type : option pyclass)
| Bare (h : handler).

Definition entry_handler (e : reg_entry) : handler :=
  match e with
  | Pair h _ => h
  | Bare h => h
  end.

(** [{event: {class-name: {component | None: entry}}}] *)
Definition registry : Type :=
  list (option Z * list (option string * list (option Z * reg_entry))).

(** The first argument of a decorator. *)
Inductive code_arg : Type :=
| CodeInt (z : Z)
| CodeEvent (cls : pyclass)
| CodeOtherClass
| CodeOtherValue.

Inductive codes : Type :=
| One (c : code_arg)
| Several (cs : list code_arg).

(** [q.rsplit('.', 1)[0]] when ['.' in q] *)
Fixpoint rsplit_dot (q : string) : option string :=
  match q with
  | EmptyString => None
  | String c q' =>
      match rsplit_dot q' with
      | Some p => Some (String c p)
      | None => if decide (c = "."%char) then Some EmptyString else None
      end
  end.

Definition _add_handler (handlers : registry) (code : code_arg)
    (component : option Z) (cls : option string) (h : handler) : res registry :=
  p <-!
    match code with
    | CodeInt z => Ok (None, Some z)
    | CodeEvent c => Ok (Some c, event_id c)
    | CodeOtherClass => Raise (RuntimeError "Handler must be for int or Event")
    | CodeOtherValue => Raise (TypeError "issubclass() arg 1 must be a class")
    end;
  let '(event_type, code) := p in
  Ok match Dict.get code handlers with
     | Some by_cls =>
         match Dict.get cls by_cls with
         | Some by_comp =>
             Dict.set code
               (Dict.set cls (Dict.set component (Bare h) by_comp) by_cls)
               handlers
         | None =>
             Dict.set code
               (Dict.set cls [(component, Pair h event_type)] by_cls) handlers
         end
     | None => Dict.set code [(cls, [(component, Pair h event_type)])] handlers
     end.

Fixpoint add_each (cs : list code_arg) (component : option Z)
    (cls : option string) (h : handler) (handlers : registry)
  : registry * res unit :=
  match cs with
  | [] => (handlers, Ok ())
  | c :: cs' =>
      match _add_handler handlers c component cls h with
      | Ok handlers' => add_each cs' component cls h handlers'
      | Raise e => (handlers, Raise e)
      end
  end.

(** The registry is changed in place: what was added before an exception
    stays. *)
Definition _set_handler (code : codes) (component : option Z) (h : handler)
    (handlers : registry) : registry * res handler :=
  let cls := rsplit_dot (qualname h) in
  match code with
  | Several cs =>
      let '(handlers', r) := add_each cs component cls h handlers in
      (handlers', _ <-! r; Ok h)
  | One c =>
      match _add_handler handlers c component cls h with
      | Ok handlers' => (handlers', Ok h)
      | Raise e => (handlers, Raise e)
      end
  end.

(** A use of one of the decorators on a function, and the registry after a
    sequence of them starting from the empty dictionary of the module. *)
Record registration : Type := {
  r_code : codes;
  r_component : option Z;
  r_handler : handler
}.

Definition registered (rs : list registration) : registry :=
  fold_left
    (fun handlers r =>
       fst (_set_handler (r_code r) (r_component r) (r_handler r) handlers))
    rs [].

(** ** [EventHandler] *)

(** [{event: {component | None: [entry, ...]}}] *)
Definition table : Type := list (option Z * list (option Z * list reg_entry)).

Record call : Type := {
  c_self : string;
  c_handler : string;
  c_result : pyresult
}.

Module EventHandler.
Record t : Type := {
  obj_name : string;
  toolbox_handlers : table;
  wimp_handlers : table;
  message_handlers : table
}.

(** The three branches of the innermost loop body of [_build_handlers] *)
Definition append_handler (event component : option Z) (h : reg_entry)
    (handlers : table) : table :=
  match Dict.get event handlers with
  | None => Dict.set event [(component, [h])] handlers
  | Some by_comp =>
      match Dict.get component by_comp with
      | None => Dict.set event (Dict.set component [h] by_comp) handlers
      | Some l => Dict.set event (Dict.set component (l ++ [h]) by_comp) handlers
      end
  end.

Definition _build_handlers (reg : registry) (handlers : table)
    (classname : string) : table :=
  fold_left
    (fun handlers '(event, handler_map) =>
       match Dict.get (Some classname) handler_map with
       | Some by_comp =>
           fold_left
             (fun handlers '(component, h) =>
                append_handler event component h handlers)
             by_comp handlers
       | None => handlers
       end)
    reg handlers.

(** [__init__]: [mro] is [inspect.getmro(self.__class__)] given by the
    [__qualname__] of each class, most derived first. *)
Definition init (nm : string) (mro : list string)
    (_toolbox_handlers _wimp_handlers _message_handlers : registry) : t :=
  fold_left
    (fun self classname =>
       {| obj_name := obj_name self;
          toolbox_handlers :=
            _build_handlers _toolbox_handlers (toolbox_handlers self) classname;
          wimp_handlers :=
            _build_handlers _wimp_handlers (wimp_handlers self) classname;
          message_handlers :=
            _build_handlers _message_handlers (message_handlers self) classname |})
    mro
    {| obj_name := nm; toolbox_handlers := []; wimp_handlers := [];
       message_handlers := [] |}.

Definition _data (data_class : option pyclass) (poll_block : list byte)
  : res pydata :=
  match data_class with
  | Some cls => o <-! from_poll_block cls poll_block; Ok (Decoded o)
  | None => Ok (Raw poll_block)
  end.

(** One [for handler, data_class in ...] loop of [_dispatch]: the calls
    made, and whether the loop left the function with [return True]. *)
Fixpoint try_handlers (self : t) (event : Z) (id_block : IdBlock)
    (poll_block : list byte) (l : list reg_entry) : list call * res bool :=
  match l with
  | [] => ([], Ok false)
  | Bare _ :: _ =>
      ([], Raise (TypeError "cannot unpack non-iterable function object"))
  | Pair h data_class :: l' =>
      match _data data_class poll_block with
      | Raise e => ([], Raise e)
      | Ok d =>
          let r := run h (obj_name self) event id_block d in
          let c := {| c_self := obj_name self; c_handler := qualname h;
                      c_result := r |} in
          if is_not_False r then ([c], Ok true)
          else
            let '(tr, out) := try_handlers self event id_block poll_block l' in
            (c :: tr, out)
      end
  end.

(** The result is [Some false] for [return False], [Some true] for
    [return True] and [None] when the function falls off its end. *)
Definition _dispatch (self : t) (handlers : table) (event : Z)
    (id_block : IdBlock) (poll_block : list byte)
  : list call * res (option bool) :=
  match Dict.get (Some event) handlers with
  | None => ([], Ok (Some false))
  | Some handlers =>
      let component := component (ib_self id_block) in
      let '(tr1, r1) :=
        match Dict.get (Some component) handlers with
        | Some l => try_handlers self event id_block poll_block l
        | None => ([], Ok false)
        end in
      match r1 with
      | Raise e => (tr1, Raise e)
      | Ok true => (tr1, Ok (Some true))
      | Ok false =>
          let '(tr2, r2) :=
            match Dict.get None handlers with
            | Some l => try_handlers self event id_block poll_block l
            | None => ([], Ok false)
            end in
          (tr1 ++ tr2,
           match r2 with
           | Raise e => Raise e
           | Ok true => Ok (Some true)
           | Ok false => Ok None
           end)
      end
  end.

Definition toolbox_dispatch (self : t) (event : Z) (id_block : IdBlock)
    (poll_block : list byte) :=
  _dispatch self (toolbox_handlers self) event id_block poll_block.

Definition wimp_dispatch (self : t) (reason : Z) (id_block : IdBlock)
    (poll_block : list byte) :=
  _dispatch self (wimp_handlers self) reason id_block poll_block.

Definition message_dispatch (self : t) (code : Z) (id_block : IdBlock)
    (poll_block : list byte) :=
  _dispatch self (message_handlers self) code id_block poll_block.
End EventHandler.

(** ** Reply callbacks and sending messages *)

(** A reply callback is called with the poll block of the reply, or with
    [None] when no reply came.  The call returns a result or raises an
    exception.  Before it does either, it may itself send messages that ask
    for a reply: each such send stores a callback in [_reply_callbacks] under
    the reference the Wimp gave to that message.  Those stores are the second
    component, in the order they happen. *)
Inductive callback : Type :=
| Callback (cb_name : string)
    (cb_run : option (list byte) -> res pyresult * list (Z * callback)).

Definition cb_name (cb : callback) : string :=
  match cb with Callback nm _ => nm end.

Definition cb_run (cb : callback) :=
  match cb with Callback _ f => f end.

(** [{ref: callback}] *)
Definition reply_table : Type := list (Z * callback).

Module UserMessage.
Record t : Type := {
  cls : pyclass;
  size : Z;
  sender : Z;
  my_ref : Z;
  your_ref : Z;
  code : Z
}.

Definition with_your_ref (self : t) (v : Z) : t :=
  {| cls := cls self; size := size self; sender := sender self;
     my_ref := my_ref self; your_ref := v; code := code self |}.

Definition with_size (self : t) (v : Z) : t :=
  {| cls := cls self; size := v; sender := sender self;
     my_ref := my_ref self; your_ref := your_ref self; code := code self |}.

Definition with_code (self : t) (v : Z) : t :=
  {| cls := cls self; size := size self; sender := sender self;
     my_ref := my_ref self; your_ref := your_ref self; code := v |}.
End UserMessage.

(** An argument in a call of [_send]: an integer or [None], or a callback
    or [None]. *)
Inductive pyarg : Type :=
| AInt (v : option Z)
| AFn (f : option callback).

Definition or_else (v : option Z) (d : Z) : Z :=
  match v with
  | Some z => if decide (z = 0%Z) then d else z
  | None => d
  end.

Section Sending.
(** The Wimp: [swi.swi('Wimp_SendMessage', ...)] takes the reason code, the
    message block, the target and the icon; it fills in the block (the
    reference of the message goes to [my_ref]) and returns a task
    handle. *)
Context {W : Type}.
Variable Wimp_SendMessage :
  W -> Z -> UserMessage.t -> Z -> Z -> W * UserMessage.t * Z.
(** [Wimp.UserMessage] and [Wimp.UserMessageRecorded] of [_consts] *)
Variables Wimp_UserMessage Wimp_UserMessageRecorded : Z.

Definition _send (self : UserMessage.t) (reason : Z) (target icon size : option Z)
    (reply_callback : option callback) (w : W) (_reply_callbacks : reply_table)
  : UserMessage.t * W * reply_table * res (option Z) :=
  let self :=
    UserMessage.with_size self
      (or_else size
         (Z.of_nat (sizeof (c_struct
            (default [] (struct_fields (UserMessage.cls self))))))
       mod 2 ^ 32)%Z in
  match event_id (UserMessage.cls self) with
  | None =>
      (self, w, _reply_callbacks,
       Raise (TypeError "an integer is required (got type NoneType)"))
  | Some ev =>
      let self := UserMessage.with_code self (ev mod 2 ^ 32)%Z in
      let '(w, self, handle) :=
        Wimp_SendMessage w reason self (or_else target 0%Z) (or_else icon 0%Z) in
      let _reply_callbacks :=
        match reply_callback with
        | Some cb => Dict.set (UserMessage.my_ref self) cb _reply_callbacks
        | None => _reply_callbacks
        end in
      (self, w, _reply_callbacks,
       Ok (if decide (target = Some 0%Z) then None else Some handle))
  end.

(** Binding the arguments of a call [self._send(...)] to the five
    parameters [reason, target, icon, size, reply_callback], none of which
    has a default. *)
Definition call__send (self : UserMessage.t) (args : list pyarg)
    (w : W) (_reply_callbacks : reply_table)
  : UserMessage.t * W * reply_table * res (option Z) :=
  match args with
  | [AInt (Some reason); AInt target; AInt icon; AInt size; AFn reply_callback] =>
      _send self reason target icon size reply_callback w _reply_callbacks
  | [_; _; _; _; _] =>
      (self, w, _reply_callbacks, Raise (TypeError "an integer is required"))
  | _ =>
      (self, w, _reply_callbacks,
       Raise (TypeError "_send() missing 1 required positional argument: 'reply_callback'"))
  end.

Definition returns_None {A} (out : UserMessage.t * W * reply_table * res A)
  : UserMessage.t * W * reply_table * res unit :=
  let '(self, w, cbs, r) := out in (self, w, cbs, _ <-! r; Ok ()).

Definition broadcast (self : UserMessage.t) (recorded : bool)
    (size : option Z) (reply_callback : option callback)
    (w : W) (_reply_callbacks : reply_table)
  : UserMessage.t * W * reply_table * res unit :=
  let self := UserMessage.with_your_ref self 0%Z in
  returns_None
    (call__send self
       [AInt (Some (if recorded then Wimp_UserMessageRecorded else Wimp_UserMessage));
        AInt None; AInt None; AInt size; AFn reply_callback]
       w _reply_callbacks).

Definition send (self : UserMessage.t) (task window iconbar : option Z)
    (recorded : bool) (size : option Z) (reply_callback : option callback)
    (w : W) (_reply_callbacks : reply_table)
  : UserMessage.t * W * reply_table * res unit :=
  let self := UserMessage.with_your_ref self 0%Z in
  let '(handle, icon) :=
    if decide (or_else task 0 ≠ 0)%Z then (or_else task 0, 0)%Z
    else if decide (or_else window 0 ≠ 0)%Z then (or_else window 0, 0)%Z
    else if decide (or_else iconbar 0 ≠ 0)%Z then ((-2)%Z, or_else iconbar 0%Z)
    else (0, 0)%Z in
  returns_None
    (call__send self
       [AInt (Some (if recorded then Wimp_UserMessageRecorded else Wimp_UserMessage));
        AInt (Some handle); AInt (Some icon); AFn reply_callback]
       w _reply_callbacks).

(** [self.reply(reply, ...)]: the first component of the result is the
    message [reply] after the call. *)
Definition reply (self reply : UserMessage.t) (recorded : bool)
    (size : option Z) (reply_callback : option callback)
    (w : W) (_reply_callbacks : reply_table)
  : UserMessage.t * W * reply_table * res unit :=
  let reply := UserMessage.with_your_ref reply (UserMessage.my_ref self) in
  returns_None
    (call__send reply
       [AInt (Some (if recorded then Wimp_UserMessageRecorded else Wimp_UserMessage));
        AInt (Some (UserMessage.sender self)); AInt None; AInt size;
        AFn reply_callback]
       w _reply_callbacks).
End Sending.

(** ** Dispatch of an incoming event *)

Record MessageInfo : Type := {
  mi_reason : Z;
  mi_size : Z;
  mi_sender : Z;
  mi_my_ref : Z;
  mi_your_ref : Z;
  mi_code : Z
}.

(** A call of a reply callback, as it appears in a trace. *)
Record fired : Type := {
  f_ref : Z;
  f_name : string;
  f_payload : option (list byte)
}.

(** [r = _reply_callbacks[ref](payload)] followed by
    [del _reply_callbacks[ref]].  When the callback raises, the [del] is
    not reached: the entry stays in the table, together with whatever the
    callback stored before it raised. *)
Definition fire (ref : Z) (payload : option (list byte))
    (_reply_callbacks : reply_table) : list fired * reply_table * res pyresult :=
  match Dict.get ref _reply_callbacks with
  | None => ([], _reply_callbacks, Raise KeyError)
  | Some cb =>
      let '(r, stores) := cb_run cb payload in
      let tbl := fold_left (fun d '(k, c) => Dict.set k c d) stores _reply_callbacks in
      let f := {| f_ref := ref; f_name := cb_name cb; f_payload := payload |} in
      match r with
      | Raise e => ([f], tbl, Raise e)
      | Ok r =>
          match Dict.del ref tbl with
          | Ok tbl' => ([f], tbl', Ok r)
          | Raise e => ([f], tbl, Raise e)
          end
      end
  end.

(** [for obj in objs: if method(obj): break] *)
Fixpoint dispatch_loop (method : EventHandler.t -> list call * res (option bool))
    (objs : list EventHandler.t) : list call * res unit :=
  match objs with
  | [] => ([], Ok ())
  | obj :: objs' =>
      let '(tr, r) := method obj in
      match r with
      | Raise e => (tr, Raise e)
      | Ok (Some true) => (tr, Ok ())
      | Ok _ =>
          let '(tr', r') := dispatch_loop method objs' in
          (tr ++ tr', r')
      end
  end.

(** What [message_dispatch] did: the reply table afterwards, the reply
    callbacks it called, whether it reached the loop over the candidate
    objects, and the handler calls made there. *)
Record message_outcome : Type := {
  mo_callbacks : reply_table;
  mo_fired : list fired;
  mo_dispatched : bool;
  mo_calls : list call;
  mo_result : res unit
}.

Section Dispatch.
(** [riscos_toolbox.base.get_object] *)
Variable get_object : Z -> option EventHandler.t.
(** [Wimp.UserMessageAcknowledge] of [_consts] *)
Variable Wimp_UserMessageAcknowledge : Z.

Definition _get_spaa (application : option EventHandler.t)
    (id_block : IdBlock) : list EventHandler.t :=
  omap get_object
    (PySet.to_list
       (PySet.of_list
          [obj_id (ib_self id_block); obj_id (ib_parent id_block);
           obj_id (ib_ancestor id_block)]))
  ++ match application with
     | Some a => [a]
     | None => []
     end.

Definition toolbox_dispatch (event_code : Z)
    (application : option EventHandler.t) (id_block : IdBlock)
    (poll_block : list byte) : list call * res unit :=
  dispatch_loop
    (fun obj => EventHandler.toolbox_dispatch obj event_code id_block poll_block)
    (_get_spaa application id_block).

Definition wimp_dispatch (reason : Z)
    (application : option EventHandler.t) (id_block : IdBlock)
    (poll_block : list byte) : list call * res unit :=
  dispatch_loop
    (fun obj => EventHandler.wimp_dispatch obj reason id_block poll_block)
    (_get_spaa application id_block).

(** The last part of [message_dispatch]: the loop over the candidates *)
Definition message_handlers_loop (code : MessageInfo)
    (application : option EventHandler.t) (id_block : IdBlock)
    (poll_block : list byte) (fs : list fired) (cbs : reply_table)
  : message_outcome :=
  let '(tr, r) :=
    dispatch_loop
      (fun obj => EventHandler.message_dispatch obj (mi_code code) id_block poll_block)
      (_get_spaa application id_block) in
  {| mo_callbacks := cbs; mo_fired := fs; mo_dispatched := true;
     mo_calls := tr; mo_result := r |}.

Definition stopped (fs : list fired) (cbs : reply_table) (r : res unit)
  : message_outcome :=
  {| mo_callbacks := cbs; mo_fired := fs; mo_dispatched := false;
     mo_calls := []; mo_result := r |}.

(** The second [if] of [message_dispatch] and what follows it *)
Definition message_bounce (code : MessageInfo)
    (application : option EventHandler.t) (id_block : IdBlock)
    (poll_block : list byte) (fs : list fired) (cbs : reply_table)
  : message_outcome :=
  if bool_decide (mi_reason code = Wimp_UserMessageAcknowledge)
     && Dict.mem (mi_my_ref code) cbs
  then
    let '(fs', cbs', r) := fire (mi_my_ref code) (Some poll_block) cbs in
    match r with
    | Raise e => stopped (fs ++ fs') cbs' (Raise e)
    | Ok r =>
        if is_not_False r then stopped (fs ++ fs') cbs' (Ok ())
        else message_handlers_loop code application id_block poll_block
               (fs ++ fs') cbs'
    end
  else message_handlers_loop code application id_block poll_block fs cbs.

Definition message_dispatch (code : MessageInfo)
    (application : option EventHandler.t) (id_block : IdBlock)
    (poll_block : list byte) (_reply_callbacks : reply_table)
  : message_outcome :=
  if Dict.mem (mi_your_ref code) _reply_callbacks then
    let '(fs, cbs, r) := fire (mi_your_ref code) (Some poll_block) _reply_callbacks in
    match r with
    | Raise e => stopped fs cbs (Raise e)
    | Ok r =>
        if is_not_False r then stopped fs cbs (Ok ())
        else message_bounce code application id_block poll_block fs cbs
    end
  else message_bounce code application id_block poll_block [] _reply_callbacks.
End Dispatch.

Definition null_polls (_reply_callbacks : reply_table) : bool :=
  bool_decide (0 < length _reply_callbacks).

(** The loop of [null_poll] over the references it listed at its start *)
Fixpoint drain (refs : list Z) (_reply_callbacks : reply_table)
  : list fired * reply_table * res unit :=
  match refs with
  | [] => ([], _reply_callbacks, Ok ())
  | ref :: refs' =>
      let '(fs, cbs, r) := fire ref None _reply_callbacks in
      match r with
      | Raise e => (fs, cbs, Raise e)
      | Ok _ =>
          let '(fs', cbs', r') := drain refs' cbs in
          (fs ++ fs', cbs', r')
      end
  end.

Definition null_poll (_reply_callbacks : reply_table)
  : list fired * reply_table * res unit :=
  drain (Dict.keys _reply_callbacks) _reply_callbacks.

Definition registered_wimp_events (_wimp_handlers : registry) : list (option Z) :=
  Dict.keys _wimp_handlers.

(** ** Views of the tables used in the statements *)

(** The list a per-instance table holds for an event and a component
    filter; no list is the empty list. *)
Definition entries (event component : option Z) (handlers : table)
  : list reg_entry :=
  match Dict.get event handlers with
  | Some by_comp =>
      match Dict.get component by_comp with
      | Some l => l
      | None => []
      end
  | None => []
  end.

(** What a registry holds under an event, a class and a component filter,
    by lookup and by walking every entry. *)
Definition lookup3 (reg : registry) (event : option Z) (cls : option string)
    (component : option Z) : option reg_entry :=
  match Dict.get event reg with
  | Some by_cls =>
      match Dict.get cls by_cls with
      | Some by_comp => Dict.get component by_comp
      | None => None
      end
  | None => None
  end.


(** What one pass of [_build_handlers] for class [classname] appends to the
    list of an event and a component filter. *)
Definition layer (reg : registry) (classname : string)
    (event component : option Z) : list reg_entry :=
  flat_map
    (fun handler_map =>
       match Dict.get (Some classname) handler_map with
       | Some by_comp => Dict.all component by_comp
       | None => []
       end)
    (Dict.all event reg).

Definition entry_names (l : list reg_entry) : list string :=
  map (fun e => qualname (entry_handler e)) l.

(** Every call of the trace returned [False]. *)
Definition continues (tr : list call) : Prop :=
  Forall (fun c => c_result c = RFalse) tr.

(** The key a decorator argument registers under, when it is accepted. *)
Definition code_key (c : code_arg) : option (option Z) :=
  match c with
  | CodeInt z => Some (Some z)
  | CodeEvent cls => Some (event_id cls)
  | _ => None
  end.

(** The candidate list as the comment above [_get_spaa] describes it: self,
    parent and ancestor in that order, each object once, then the
    application. *)
Fixpoint first_occurrences (seen l : list Z) : list Z :=
  match l with
  | [] => []
  | x :: l' =>
      if decide (x ∈ seen) then first_occurrences seen l'
      else x :: first_occurrences (x :: seen) l'
  end.

Definition spaa_in_order (get_object : Z -> option EventHandler.t)
    (application : option EventHandler.t) (id_block : IdBlock)
  : list EventHandler.t :=
  omap get_object
    (first_occurrences []
       [obj_id (ib_self id_block); obj_id (ib_parent id_block);
        obj_id (ib_ancestor id_block)])
  ++ match application with
     | Some a => [a]
     | None => []
     end.

(** The last call of the trace returned something other than [False], all
    calls before it returned [False]. *)
Definition handled_at_end (tr : list call) : Prop :=
  exists pre c, tr = pre ++ [c] /\ continues pre /\ c_result c ≠ RFalse.

(** Handler [a] is called, and handler [b] is not called before it. *)
Definition invoked_before (a b : string) (tr : list call) : Prop :=
  exists pre post, map c_handler tr = pre ++ a :: post /\ b ∉ pre.

(** Keys are distinct at each of the three levels of a registry. *)
Definition distinct_keys (reg : registry) : Prop :=
  NoDup (Dict.keys reg)
  /\ Forall
       (fun by_cls =>
          NoDup (Dict.keys by_cls.2)
          /\ Forall (fun by_comp => NoDup (Dict.keys by_comp.2)) by_cls.2)
       reg.

Definition option_list {A} (o : option A) : list A :=
  match o with
  | Some x => [x]
  | None => []
  end.

(** ** A small application

    [class A: @toolbox_handler(5, 2) def h1; @toolbox_handler(6, 2) def on6],
    [class B(A): @toolbox_handler(5) def h2; @toolbox_handler(6, 2) def on6]
    and [class App: @toolbox_handler(5) def h4], registered in this order.
    Object 3 is an instance of [B]; objects 1 and 2 are plain objects
    without handlers. *)
Module Example.
Definition returning (q : string) (r : pyresult) : handler :=
  {| qualname := q; run := fun _ _ _ _ => r |}.

Definition h1 : handler := returning "A.h1" RFalse.
Definition h2 : handler := returning "B.h2" RNone.
Definition h4 : handler := returning "App.h4" RNone.
Definition A_on6 : handler := returning "A.on6" RFalse.
Definition B_on6 : handler := returning "B.on6" RFalse.

Definition on (code : Z) (component : option Z) (h : handler) : registration :=
  {| r_code := One (CodeInt code); r_component := component; r_handler := h |}.

Definition registrations : list registration :=
  [on 5 (Some 2%Z) h1; on 6 (Some 2%Z) A_on6;
   on 5 None h2; on 6 (Some 2%Z) B_on6;
   on 5 None h4].

Definition _toolbox_handlers : registry := registered registrations.

Definition b : EventHandler.t :=
  EventHandler.init "b" ["B"; "A"; "EventHandler"; "object"]
    _toolbox_handlers [] [].

Definition app : EventHandler.t :=
  EventHandler.init "app" ["App"; "EventHandler"; "object"]
    _toolbox_handlers [] [].

Definition plain (nm : string) : EventHandler.t :=
  EventHandler.init nm ["EventHandler"; "object"] _toolbox_handlers [] [].

Definition get_object (i : Z) : option EventHandler.t :=
  if decide (i = 3%Z) then Some b
  else if decide (i = 1%Z) then Some (plain "parent")
  else if decide (i = 2%Z) then Some (plain "ancestor")
  else None.

(** The event comes from component 2 of object 3, whose parent is object 1
    and whose ancestor is object 2. *)
Definition id_block : IdBlock :=
  {| ib_self := {| obj_id := 3; component := 2 |};
     ib_parent := {| obj_id := 1; component := 0 |};
     ib_ancestor := {| obj_id := 2; component := 0 |} |}.

(** Reply callbacks: [on_reply] returns [False], [on_bounce] returns
    nothing, [resend], called on idle, sends the message again and asks
    for a reply to it, which the Wimp numbers 11, and [failing] raises. *)
Definition answering (nm : string) (r : pyresult) : callback :=
  Callback nm (fun _ => (Ok r, [])).

Definition on_reply : callback := answering "on_reply" RFalse.
Definition on_bounce : callback := answering "on_bounce" RNone.
Definition resend : callback :=
  Callback "resend"
    (fun _ => (Ok RNone, [(11%Z, answering "on_second_reply" RNone)])).

Definition pending : reply_table := [(7%Z, on_reply); (9%Z, on_bounce)].
Definition outstanding : reply_table := [(7%Z, resend); (9%Z, on_bounce)].

Definition UserMessageAcknowledge : Z := 19.

(** Message 9 comes back undelivered; it was itself sent as a reply to
    message 7. *)
Definition bounced : MessageInfo :=
  {| mi_reason := UserMessageAcknowledge; mi_size := 20; mi_sender := 0;
     mi_my_ref := 9; mi_your_ref := 7; mi_code := 5 |}.

(** An ordinary message that answers message 7. *)
Definition answer : MessageInfo :=
  {| mi_reason := 17; mi_size := 20; mi_sender := 0;
     mi_my_ref := 40; mi_your_ref := 7; mi_code := 5 |}.
End Example.

(** [_reply_callbacks[k] = c] for each store of a callback, in order *)
Definition store_all (stores : list (Z * callback)) (cbs : reply_table)
  : reply_table :=
  fold_left (fun d '(k, c) => Dict.set k c d) stores cbs.

(** The trace entry of calling the callback of a table entry. *)
Definition fired_with (payload : option (list byte)) (entry : Z * callback)
  : fired :=
  {| f_ref := entry.1; f_name := cb_name entry.2; f_payload := payload |}.

(** ** Further views used in the statements *)

(** The event type a decorator argument carries: the class itself for an
    [Event] class, nothing for an integer. *)
Definition code_event_type (c : code_arg) : option pyclass :=
  match c with
  | CodeEvent cls => Some cls
  | _ => None
  end.

(** The dictionary a registry holds for an event and a class. *)
Definition class_dict (reg : registry) (event : option Z) (cls : option string)
  : option (list (option Z * reg_entry)) :=
  match Dict.get event reg with
  | Some by_cls => Dict.get cls by_cls
  | None => None
  end.

(** Every entry is stored under the class its function was defined in. *)
Definition under_own_class (reg : registry) : Prop :=
  forall e by_cls cls by_comp c entry,
    (e, by_cls) ∈ reg -> (cls, by_comp) ∈ by_cls -> (c, entry) ∈ by_comp ->
    rsplit_dot (qualname (entry_handler entry)) = cls.

(** ** A window class with a decoded event

    [class Shown(ToolboxEvent): event_id = 9] and
    [class W: @toolbox_handler(Shown, 2) def shown]; every object id
    resolves to the one instance of [W]. *)
Module Example2.
Definition Shown : pyclass :=
  {| name := "Shown"; event_id := Some 9%Z;
     struct_fields := Some ToolboxEvent_fields |}.

Definition shown : handler := Example.returning "W.shown" RNone.

Definition _toolbox_handlers : registry :=
  registered
    [{| r_code := One (CodeEvent Shown); r_component := Some 2%Z;
        r_handler := shown |}].

Definition w : EventHandler.t :=
  EventHandler.init "w" ["W"; "EventHandler"; "object"] _toolbox_handlers [] [].

Definition get_object (i : Z) : option EventHandler.t := Some w.

(** The Wimp numbers the messages it is given 100 and returns task 1. *)
Definition Wimp_SendMessage (w : unit) (reason : Z) (m : UserMessage.t)
    (target icon : Z) : unit * UserMessage.t * Z :=
  (w, {| UserMessage.cls := UserMessage.cls m;
         UserMessage.size := UserMessage.size m;
         UserMessage.sender := UserMessage.sender m;
         UserMessage.my_ref := 100;
         UserMessage.your_ref := UserMessage.your_ref m;
         UserMessage.code := UserMessage.code m |}, 1%Z).

Definition Quit : pyclass :=
  {| name := "Quit"; event_id := Some 0%Z;
     struct_fields := Some UserMessage_fields |}.

Definition quit : UserMessage.t :=
  {| UserMessage.cls := Quit; UserMessage.size := 0; UserMessage.sender := 0;
     UserMessage.my_ref := 0; UserMessage.your_ref := 0;
     UserMessage.code := 0 |}.

(** A message of the class [UserMessage] itself, which has no
    [event_id]. *)
Definition untyped : UserMessage.t :=
  {| UserMessage.cls :=
       {| name := "UserMessage"; event_id := None;
          struct_fields := Some UserMessage_fields |};
     UserMessage.size := 0; UserMessage.sender := 0;
     UserMessage.my_ref := 0; UserMessage.your_ref := 0;
     UserMessage.code := 0 |}.

(** A message received from task 66 under reference 41. *)
Definition received : UserMessage.t :=
  {| UserMessage.cls := Quit; UserMessage.size := 20; UserMessage.sender := 66;
     UserMessage.my_ref := 41; UserMessage.your_ref := 0;
     UserMessage.code := 0 |}.


Definition undelivered : MessageInfo :=
  {| mi_reason := 19; mi_size := 20; mi_sender := 0; mi_my_ref := 9;
     mi_your_ref := 0; mi_code := 5 |}.

Definition reply_to_100 : MessageInfo :=
  {| mi_reason := 17; mi_size := 20; mi_sender := 0; mi_my_ref := 7;
     mi_your_ref := 100; mi_code := 5 |}.

(** [class Plain(Event): event_id = 12], which is no structure, and
    [class V: @toolbox_handler(Plain) def plain]. *)
Definition Plain : pyclass :=
  {| name := "Plain"; event_id := Some 12%Z; struct_fields := None |}.

Definition plain_handler : handler := Example.returning "V.plain" RNone.

Definition v : EventHandler.t :=
  EventHandler.init "v" ["V"; "EventHandler"; "object"]
    (registered
       [{| r_code := One (CodeEvent Plain); r_component := None;
           r_handler := plain_handler |}]) [] [].
End Example2.

(** ** The probe sequence of a key

    The slots [PySet.probe] looks at for a key, one after the other, and the
    property of a table that every key sits on its own probe sequence behind
    slots taken by other keys. *)
Module Probe.
Definition next (s : Z * Z) : Z * Z :=
  let perturb' := Z.shiftr s.2 PySet.PERTURB_SHIFT in
  (Z.land (s.1 * 5 + 1 + perturb') PySet.mask, perturb').

Fixpoint walk (n : nat) (s : Z * Z) : Z * Z :=
  match n with
  | O => s
  | S n' => walk n' (next s)
  end.

Definition start (key : Z) : Z * Z :=
  (Z.land (PySet.hash key) PySet.mask,
   (PySet.hash key mod 2 ^ PySet.ssize_bits)%Z).

Definition slot (key : Z) (n : nat) : nat := Z.to_nat (walk n (start key)).1.

Definition well_formed (tbl : list (option Z)) : Prop :=
  length tbl = 8
  /\ forall j k,
       tbl !! j = Some (Some k) ->
       exists n, n < 64 /\ slot k n = j
         /\ forall m, m < n ->
              exists k', tbl !! slot k m = Some (Some k') /\ k' ≠ k.
End Probe.

(** ** The calls of a dispatch, entry by entry *)

(** The call [try_handlers] makes for an entry when it gets to it; there is
    none for a bare function and none when the poll block cannot be
    decoded. *)
Definition call_of (self : EventHandler.t) (event : Z) (id_block : IdBlock)
    (poll_block : list byte) (entry : reg_entry) : option call :=
  match entry with
  | Pair h data_class =>
      match EventHandler._data data_class poll_block with
      | Ok d =>
          Some {| c_self := EventHandler.obj_name self;
                  c_handler := qualname h;
                  c_result := run h (EventHandler.obj_name self) event
                                id_block d |}
      | Raise _ => None
      end
  | Bare _ => None
  end.

(** The calls of the entries of a list, one after the other, as far as the
    entries can be called. *)
Fixpoint callable (self : EventHandler.t) (event : Z) (id_block : IdBlock)
    (poll_block : list byte) (l : list reg_entry) : list call :=
  match l with
  | [] => []
  | entry :: l' =>
      match call_of self event id_block poll_block entry with
      | Some c => c :: callable self event id_block poll_block l'
      | None => []
      end
  end.

(** A sequence of calls cut after the first one that did not return
    [False]. *)
Fixpoint until_handled (cs : list call) : list call :=
  match cs with
  | [] => []
  | c :: cs' =>
      if is_not_False (c_result c) then [c] else c :: until_handled cs'
  end.



(** ** Uses of a decorator and the slot they write *)

Definition code_list (code : codes) : list code_arg :=
  match code with
  | One c => [c]
  | Several cs => cs
  end.

(** The use [r] of a decorator stores its function for event [e]: [e] is
    the key of one of its codes, and the codes before that one are all
    accepted. *)
Definition stores_for (r : registration) (e : option Z) : Prop :=
  exists pre ca post,
    code_list (r_code r) = pre ++ ca :: post
    /\ Forall (fun x => code_key x ≠ None) pre
    /\ code_key ca = Some e.

(** [r] registers its function, a function of class [cls], for event [e]
    and component filter [c]. *)
Definition registers (r : registration) (e : option Z) (cls : string)
    (c : option Z) : Prop :=
  stores_for r e /\ r_component r = c
  /\ rsplit_dot (qualname (r_handler r)) = Some cls.

(** [r] names event [e], class [cls] and component filter [c]. *)
Definition touches (r : registration) (e : option Z) (cls : string)
    (c : option Z) : Prop :=
  Some e ∈ map code_key (code_list (r_code r)) /\ r_component r = c
  /\ rsplit_dot (qualname (r_handler r)) = Some cls.

(** [r] is the last use of a decorator in [rs] for event [e], class [cls]
    and component filter [c]. *)
Definition last_registration (rs : list registration) (e : option Z)
    (cls : string) (c : option Z) (r : registration) : Prop :=
  exists before after,
    rs = before ++ r :: after /\ registers r e cls c
    /\ Forall (fun r' => ~ touches r' e cls c) after.

(** The registry holds function [h] under event, class and component. *)
Definition holds_handler (reg : registry) (e : option Z) (cls : option string)
    (c : option Z) (h : handler) : Prop :=
  exists entry, lookup3 reg e cls c = Some entry /\ entry_handler entry = h.

(** A callback returns, whatever it returns, when called with [payload]. *)
Definition returns (payload : option (list byte)) (cb : callback) : Prop :=
  exists v, (cb_run cb payload).1 = Ok v.

(** ** Two classes of one name

    [class Window: @toolbox_handler(5) def on5], which returns [False], in
    one module, and in another module
    [class Window(base.Window): @toolbox_handler(5) def on5], which returns
    nothing.  Both classes have the [__qualname__] [Window], both functions
    the [__qualname__] [Window.on5].  [window] is an instance of the derived
    class; [plain_window] is the same instance when the derived class
    registers nothing. *)
Module Example3.
Definition base_on5 : handler := Example.returning "Window.on5" RFalse.
Definition derived_on5 : handler := Example.returning "Window.on5" RNone.

Definition registrations : list registration :=
  [Example.on 5 None base_on5; Example.on 5 None derived_on5].

Definition window : EventHandler.t :=
  EventHandler.init "window" ["Window"; "Window"; "EventHandler"; "object"]
    (registered registrations) [] [].




End Example3.

(** * Properties *)

(** ** Dictionaries *)

Section DictFacts.
Context {K V : Type} `{EqDecision K}.
Implicit Types (k : K) (v : V) (d : list (K * V)).

Lemma get_set_eq k v d : Dict.get k (Dict.set k v d) = Some v.
Proof.
  induction d as [|[k' v'] d IH]; simpl.
  - by rewrite decide_True.
  - destruct (decide (k' = k)) as [->|Hne]; simpl.
    + by rewrite decide_True.
    + by rewrite decide_False.
Qed.

Lemma get_set_ne k k' v d :
  k ≠ k' -> Dict.get k' (Dict.set k v d) = Dict.get k' d.
Proof.
  intros Hne. induction d as [|[k0 v0] d IH]; simpl.
  - by rewrite decide_False.
  - destruct (decide (k0 = k)) as [->|Hne0]; simpl.
    + by rewrite !decide_False.
    + by rewrite IH.
Qed.

Lemma get_Some_elem k v d : Dict.get k d = Some v -> (k, v) ∈ d.
Proof.
  induction d as [|[k' v'] d IH]; simpl; [done|].
  destruct (decide (k' = k)) as [->|Hne].
  - intros [= ->]. apply elem_of_cons. by left.
  - intros H. apply elem_of_cons. right. by apply IH.
Qed.

Lemma get_None_keys k d : Dict.get k d = None <-> k ∉ Dict.keys d.
Proof.
  unfold Dict.keys. induction d as [|[k' v'] d IH]; simpl.
  - split; [intros _ H; by apply elem_of_nil in H | done].
  - rewrite not_elem_of_cons. destruct (decide (k' = k)) as [->|Hne].
    + split; [done | by intros [? _]].
    + rewrite IH. split; [by intros ? | by intros [_ ?]].
Qed.

Lemma mem_keys k d : Dict.mem k d = true <-> k ∈ Dict.keys d.
Proof.
  unfold Dict.mem. destruct (Dict.get k d) eqn:E.
  - split; [|done]. intros _.
    destruct (decide (k ∈ Dict.keys d)) as [|Hn]; [done|].
    apply get_None_keys in Hn. congruence.
  - split; [done|]. intros Hin. by apply get_None_keys in E.
Qed.

Lemma keys_set k v d :
  Dict.keys (Dict.set k v d)
  = if Dict.mem k d then Dict.keys d else Dict.keys d ++ [k].
Proof.
  unfold Dict.keys, Dict.mem. induction d as [|[k' v'] d IH]; simpl; [done|].
  destruct (decide (k' = k)) as [->|Hne]; simpl; [done|].
  rewrite IH. by destruct (Dict.get k d).
Qed.

Lemma NoDup_keys_set k v d :
  NoDup (Dict.keys d) -> NoDup (Dict.keys (Dict.set k v d)).
Proof.
  intros Hnd. rewrite keys_set. destruct (Dict.mem k d) eqn:E; [done|].
  apply NoDup_app. split; [done|]. split; [|apply NoDup_singleton].
  intros x Hx Hk. apply list_elem_of_singleton in Hk as ->.
  apply mem_keys in Hx. congruence.
Qed.

Lemma Forall_set (P : K * V -> Prop) k v d :
  Forall P d -> P (k, v) -> Forall P (Dict.set k v d).
Proof.
  intros Hd Hp. induction Hd as [|[k' v'] d Hx Hd IH]; simpl.
  - by constructor.
  - destruct (decide (k' = k)) as [->|Hne]; by constructor.
Qed.

Lemma all_set_eq k v d :
  NoDup (Dict.keys d) -> Dict.all k (Dict.set k v d) = [v].
Proof.
  unfold Dict.keys. induction d as [|[k' v'] d IH]; simpl; intros Hnd.
  - by rewrite decide_True.
  - apply NoDup_cons in Hnd as [Hnotin Hnd].
    destruct (decide (k' = k)) as [->|Hne]; simpl.
    + rewrite decide_True by done. f_equal.
      clear IH Hnd. induction d as [|[k0 v0] d IH]; simpl; [done|].
      simpl in Hnotin. apply not_elem_of_cons in Hnotin as [Hk Hnotin].
      rewrite decide_False by done. by apply IH.
    + rewrite decide_False by done. by apply IH.
Qed.

Lemma all_set_ne k k' v d :
  k ≠ k' -> Dict.all k' (Dict.set k v d) = Dict.all k' d.
Proof.
  intros Hne. induction d as [|[k0 v0] d IH]; simpl.
  - by rewrite decide_False.
  - destruct (decide (k0 = k)) as [->|Hne0]; simpl.
    + by rewrite !decide_False.
    + by rewrite IH.
Qed.

Lemma all_nodup k d :
  NoDup (Dict.keys d) ->
  Dict.all k d = match Dict.get k d with Some v => [v] | None => [] end.
Proof.
  unfold Dict.keys. induction d as [|[k' v'] d IH]; simpl; intros Hnd; [done|].
  apply NoDup_cons in Hnd as [Hnotin Hnd].
  destruct (decide (k' = k)) as [->|Hne]; [|by apply IH].
  rewrite IH by done. apply (get_None_keys k d) in Hnotin. by rewrite Hnotin.
Qed.

Lemma get_del_eq k d d' :
  NoDup (Dict.keys d) -> Dict.del k d = Ok d' -> Dict.get k d' = None.
Proof.
  unfold Dict.keys. revert d'.
  induction d as [|[k' v'] d IH]; simpl; intros d' Hnd; [done|].
  apply NoDup_cons in Hnd as [Hnotin Hnd].
  destruct (decide (k' = k)) as [->|Hne].
  - intros [= <-]. by apply get_None_keys.
  - destruct (Dict.del k d) as [d''|] eqn:E; simpl; [|done].
    intros [= <-]. simpl. rewrite decide_False by done. by apply IH.
Qed.

Lemma get_del_ne k k' d d' :
  k ≠ k' -> Dict.del k d = Ok d' -> Dict.get k' d' = Dict.get k' d.
Proof.
  intros Hne. revert d'.
  induction d as [|[k0 v0] d IH]; simpl; intros d'; [done|].
  destruct (decide (k0 = k)) as [->|Hne0].
  - intros [= <-]. by rewrite decide_False.
  - destruct (Dict.del k d) as [d''|] eqn:E; simpl; [|done].
    intros [= <-]. simpl. by rewrite (IH d'').
Qed.

Lemma del_Some k v d :
  Dict.get k d = Some v -> exists d', Dict.del k d = Ok d'.
Proof.
  induction d as [|[k' v'] d IH]; simpl; [done|].
  destruct (decide (k' = k)) as [->|Hne]; [by eexists|].
  intros H. destruct (IH H) as [d' ->]. simpl. by eexists.
Qed.
End DictFacts.


(** ** The codec *)

Lemma copy_loop (poll_block : list byte) (total n : nat) :
  n ≤ total -> n ≤ length poll_block ->
  fold_left
    (fun dst b =>
       dst <-! dst;
       match poll_block !! b with
       | Some x => Ok (<[b := x]> dst)
       | None => Raise IndexError
       end)
    (seq 0 n) (Ok (replicate total x00))
  = Ok (take n poll_block ++ replicate (total - n) x00).
Proof.
  induction n as [|n IH]; intros Htot Hlen.
  - simpl. by rewrite Nat.sub_0_r.
  - rewrite seq_S, fold_left_app, IH by lia. simpl.
    destruct (lookup_lt_is_Some_2 poll_block n) as [x Hx]; [lia|].
    rewrite Hx. f_equal.
    rewrite (take_S_r _ _ _ Hx), <- app_assoc.
    rewrite insert_app_r_alt by (rewrite length_take; lia).
    rewrite length_take, Nat.min_l by lia.
    replace (n - n) with 0 by lia.
    replace (total - n) with (S (total - S n)) by lia.
    reflexivity.
Qed.

Lemma from_poll_block_long (cls : pyclass) (fs : list (string * ctype))
    (poll_block : list byte) :
  struct_fields cls = Some fs ->
  sizeof (c_struct fs) ≤ length poll_block ->
  from_poll_block cls poll_block
  = Ok {| ob_class := cls; ob_mem := take (sizeof (c_struct fs)) poll_block |}.
Proof.
  intros Hcls Hlen. unfold from_poll_block. rewrite Hcls.
  destruct (decide _) as [Hlt|_]; [lia|].
  rewrite copy_loop by lia. simpl.
  by rewrite Nat.sub_diag, app_nil_r.
Qed.

Lemma from_poll_block_short (cls : pyclass) (fs : list (string * ctype))
    (poll_block : list byte) :
  struct_fields cls = Some fs ->
  length poll_block < sizeof (c_struct fs) ->
  from_poll_block cls poll_block
  = Raise (RuntimeError ("not enough data for " +:+ name cls)).
Proof.
  intros Hcls Hlt. unfold from_poll_block. rewrite Hcls.
  destruct (decide _); [done | lia].
Qed.

(** C6: for a structure class of size S, a poll block shorter than S is
    refused with "not enough data"; a poll block of length at least S is
    decoded, the memory of the object is the first S bytes of the block, and
    bytes after them make no difference. *)
Theorem from_poll_block_length (cls : pyclass) (fs : list (string * ctype))
    (poll_block : list byte) :
  struct_fields cls = Some fs ->
  (length poll_block < sizeof (c_struct fs) ->
   from_poll_block cls poll_block
   = Raise (RuntimeError ("not enough data for " +:+ name cls)))
  /\ (sizeof (c_struct fs) ≤ length poll_block ->
      from_poll_block cls poll_block
      = Ok {| ob_class := cls;
              ob_mem := take (sizeof (c_struct fs)) poll_block |}
      /\ forall trailing,
           from_poll_block cls (poll_block ++ trailing)
           = from_poll_block cls poll_block).
Proof.
  intros Hcls. split.
  - by apply from_poll_block_short.
  - intros Hlen. split; [by apply from_poll_block_long|].
    intros trailing.
    rewrite !(from_poll_block_long cls fs)
      by (done || (rewrite ?length_app; lia)).
    by rewrite take_app_le.
Qed.

Lemma from_poll_block_length_witness :
  from_poll_block ToolboxEvent (replicate 15 x01)
  = Raise (RuntimeError "not enough data for ToolboxEvent")
  /\ from_poll_block ToolboxEvent (replicate 16 x01 ++ [x02; x03])
     = Ok {| ob_class := ToolboxEvent; ob_mem := replicate 16 x01 |}.
Proof.
  split.
  - apply (proj1 (from_poll_block_length ToolboxEvent ToolboxEvent_fields
                    (replicate 15 x01) eq_refl)).
    vm_compute. lia.
  - apply (proj1 (proj2 (from_poll_block_length ToolboxEvent ToolboxEvent_fields
                    (replicate 16 x01 ++ [x02; x03]) eq_refl)
                    ltac:(vm_compute; lia))).
Defined.

(** The fields of a decoded object are read from the first bytes of the
    poll block. *)
Lemma from_poll_block_fields (cls : pyclass) (fs : list (string * ctype))
    (poll_block : list byte) (o : cobj) (attr : string) :
  struct_fields cls = Some fs ->
  from_poll_block cls poll_block = Ok o ->
  field_of o attr
  = getattr_fields fs (take (sizeof (c_struct fs)) poll_block) attr.
Proof.
  intros Hcls Ho.
  destruct (decide (length poll_block < sizeof (c_struct fs))) as [Hlt|Hge].
  - rewrite (from_poll_block_short _ _ _ Hcls Hlt) in Ho. discriminate.
  - rewrite (from_poll_block_long _ fs) in Ho by (done || lia).
    injection Ho as <-. unfold field_of. simpl. by rewrite Hcls.
Qed.

Section AboutToBeShownProperties.
Variables BBox Point : ctype.

(** C8: on every [AboutToBeShownEvent], whatever its show type, reading
    [parent_window_handle] raises [AttributeError]: the property reads
    [_parent_window_handle], the field is declared as
    [+parent_window_handle]. *)
Theorem parent_window_handle_raises (mem : list byte) :
  parent_window_handle
    {| ob_class := AboutToBeShownEvent BBox Point; ob_mem := mem |}
  = Raise (AttributeError "_parent_window_handle").
Proof. reflexivity. Qed.

(** The other conditional fields that read an integer behave as the
    properties intend: absent unless the show type is [ShowType_FullSpec],
    and then the value of the field. *)
Lemma conditional_fields (mem : list byte) (z : Z) :
  let self := {| ob_class := AboutToBeShownEvent BBox Point; ob_mem := mem |} in
  field_of self "show_type" = Ok (VInt z) ->
  forall prop attr,
    (prop, attr) ∈ [(behind, "_behind"); (window_flags, "_window_flags");
                    (alignment_flags, "_alignment_flags");
                    (scroll, "_scroll"); (visible_area, "_visible_area")] ->
    exists v, field_of self attr = Ok v
      /\ prop self = Ok (if decide (z = ShowType_FullSpec) then Some v else None).
Proof.
  intros self Hst prop attr Hin.
  assert (Hg : forall v, get_if self v ShowType_FullSpec
               = Ok (if decide (z = ShowType_FullSpec) then Some v else None)).
  { intros v. unfold get_if. by rewrite Hst. }
  repeat match goal with
         | H : _ ∈ _ :: _ |- _ =>
             apply elem_of_cons in H as [E|H];
             [inversion E; subst; eexists; (split; [reflexivity|]); apply Hg|]
         end.
  by apply elem_of_nil in Hin.
Qed.
End AboutToBeShownProperties.

(** ** The per-instance table *)

Lemma entries_append_handler (e c e' c' : option Z) (h : reg_entry) (tbl : table) :
  entries e c (EventHandler.append_handler e' c' h tbl)
  = entries e c tbl ++ (if decide (e' = e /\ c' = c) then [h] else []).
Proof.
  unfold entries, EventHandler.append_handler.
  destruct (decide (e' = e)) as [->|Hne].
  - destruct (Dict.get e tbl) as [by_comp|] eqn:Ee.
    + destruct (decide (c' = c)) as [->|Hc].
      * rewrite decide_True by done.
        destruct (Dict.get c by_comp) as [l|] eqn:Ec;
          by rewrite !get_set_eq.
      * rewrite decide_False by (by intros [_ ?]).
        destruct (Dict.get c' by_comp) as [l|] eqn:Ec;
          by rewrite get_set_eq, get_set_ne, app_nil_r.
    + rewrite get_set_eq. simpl.
      destruct (decide (c' = c)) as [->|Hc].
      * by rewrite !decide_True.
      * by rewrite !decide_False by (try done; by intros [_ ?]).
  - rewrite (decide_False (P := e' = e /\ c' = c)) by (by intros [? _]).
    rewrite app_nil_r.
    destruct (Dict.get e' tbl) as [by_comp|] eqn:Ee.
    + destruct (Dict.get c' by_comp); by rewrite get_set_ne.
    + by rewrite get_set_ne.
Qed.

Lemma entries_append_all (e c ev : option Z) (by_comp : list (option Z * reg_entry))
    (tbl : table) :
  entries e c
    (fold_left
       (fun handlers '(component, h) =>
          EventHandler.append_handler ev component h handlers)
       by_comp tbl)
  = entries e c tbl ++ (if decide (ev = e) then Dict.all c by_comp else []).
Proof.
  revert tbl. induction by_comp as [|[c' h] by_comp IH]; intros tbl; simpl.
  - destruct (decide (ev = e)); by rewrite app_nil_r.
  - rewrite IH, entries_append_handler, <- app_assoc. f_equal.
    destruct (decide (ev = e)) as [->|Hne].
    + destruct (decide (c' = c)) as [->|Hc].
      * by rewrite decide_True.
      * by rewrite decide_False by (by intros [_ ?]).
    + by rewrite decide_False by (by intros [? _]).
Qed.

Lemma entries_build_handlers (e c : option Z) (reg : registry) (tbl : table)
    (classname : string) :
  entries e c (EventHandler._build_handlers reg tbl classname)
  = entries e c tbl ++ layer reg classname e c.
Proof.
  unfold EventHandler._build_handlers, layer. revert tbl.
  induction reg as [|[ev handler_map] reg IH]; intros tbl; simpl.
  - by rewrite app_nil_r.
  - rewrite IH. destruct (decide (ev = e)) as [->|Hne]; simpl.
    + destruct (Dict.get (Some classname) handler_map) as [by_comp|].
      * by rewrite entries_append_all, decide_True, <- app_assoc.
      * done.
    + destruct (Dict.get (Some classname) handler_map) as [by_comp|]; [|done].
      by rewrite entries_append_all, decide_False, app_nil_r.
Qed.

Lemma entries_build_chain (e c : option Z) (reg : registry) (mro : list string)
    (tbl : table) :
  entries e c
    (fold_left (fun t k => EventHandler._build_handlers reg t k) mro tbl)
  = entries e c tbl ++ flat_map (fun k => layer reg k e c) mro.
Proof.
  revert tbl. induction mro as [|k mro IH]; intros tbl; simpl.
  - by rewrite app_nil_r.
  - by rewrite IH, entries_build_handlers, <- app_assoc.
Qed.

Lemma init_fold (mro : list string) (R1 R2 R3 : registry) (s : EventHandler.t) :
  let self :=
    fold_left
      (fun self classname =>
         {| EventHandler.obj_name := EventHandler.obj_name self;
            EventHandler.toolbox_handlers :=
              EventHandler._build_handlers R1
                (EventHandler.toolbox_handlers self) classname;
            EventHandler.wimp_handlers :=
              EventHandler._build_handlers R2
                (EventHandler.wimp_handlers self) classname;
            EventHandler.message_handlers :=
              EventHandler._build_handlers R3
                (EventHandler.message_handlers self) classname |})
      mro s in
  EventHandler.obj_name self = EventHandler.obj_name s
  /\ EventHandler.toolbox_handlers self
     = fold_left (fun t k => EventHandler._build_handlers R1 t k) mro
         (EventHandler.toolbox_handlers s)
  /\ EventHandler.wimp_handlers self
     = fold_left (fun t k => EventHandler._build_handlers R2 t k) mro
         (EventHandler.wimp_handlers s)
  /\ EventHandler.message_handlers self
     = fold_left (fun t k => EventHandler._build_handlers R3 t k) mro
         (EventHandler.message_handlers s).
Proof.
  revert s. induction mro as [|k mro IH]; intros s; simpl; [done|].
  exact (IH _).
Qed.

Lemma init_tables (nm : string) (mro : list string) (R1 R2 R3 : registry) :
  let self := EventHandler.init nm mro R1 R2 R3 in
  EventHandler.obj_name self = nm
  /\ EventHandler.toolbox_handlers self
     = fold_left (fun t k => EventHandler._build_handlers R1 t k) mro []
  /\ EventHandler.wimp_handlers self
     = fold_left (fun t k => EventHandler._build_handlers R2 t k) mro []
  /\ EventHandler.message_handlers self
     = fold_left (fun t k => EventHandler._build_handlers R3 t k) mro [].
Proof. apply init_fold. Qed.

(** The list an instance holds for an event and a component filter is made
    of one layer per class of its chain, in the order of the chain. *)
Lemma init_entries (nm : string) (mro : list string) (R1 R2 R3 : registry)
    (e c : option Z) :
  let self := EventHandler.init nm mro R1 R2 R3 in
  entries e c (EventHandler.toolbox_handlers self)
  = flat_map (fun k => layer R1 k e c) mro
  /\ entries e c (EventHandler.wimp_handlers self)
     = flat_map (fun k => layer R2 k e c) mro
  /\ entries e c (EventHandler.message_handlers self)
     = flat_map (fun k => layer R3 k e c) mro.
Proof.
  pose proof (init_tables nm mro R1 R2 R3) as H. cbv zeta in *.
  destruct H as (_ & -> & -> & ->).
  by rewrite !entries_build_chain.
Qed.

(** ** The registries *)

Lemma distinct_keys_get (reg : registry) e by_cls :
  distinct_keys reg -> Dict.get e reg = Some by_cls ->
  NoDup (Dict.keys by_cls)
  /\ Forall (fun by_comp => NoDup (Dict.keys by_comp.2)) by_cls.
Proof.
  intros [_ Hall] Hget. apply get_Some_elem in Hget.
  rewrite Forall_forall in Hall. apply (Hall _ Hget).
Qed.

Lemma distinct_keys_add_handler (reg reg' : registry) code component cls h :
  distinct_keys reg ->
  _add_handler reg code component cls h = Ok reg' ->
  distinct_keys reg'.
Proof.
  intros Hd. unfold _add_handler.
  destruct (match code with CodeInt z => _ | _ => _ end) as [[event_type e]|];
    simpl; [|done].
  intros [= <-].
  assert (Hone : forall (k : option Z) (x : reg_entry), NoDup (Dict.keys [(k, x)])).
  { intros k x. apply NoDup_singleton. }
  destruct (Dict.get e reg) as [by_cls|] eqn:Ee.
  - destruct (distinct_keys_get _ _ _ Hd Ee) as [Hnd Hall].
    destruct Hd as [Hk Hd].
    destruct (Dict.get cls by_cls) as [by_comp|] eqn:Ec.
    + split; [by apply NoDup_keys_set|].
      apply Forall_set; [done|]. simpl. split; [by apply NoDup_keys_set|].
      apply Forall_set; [done|]. simpl. apply NoDup_keys_set.
      apply get_Some_elem in Ec. rewrite Forall_forall in Hall.
      apply (Hall _ Ec).
    + split; [by apply NoDup_keys_set|].
      apply Forall_set; [done|]. simpl. split; [by apply NoDup_keys_set|].
      apply Forall_set; [done|]. apply Hone.
  - destruct Hd as [Hk Hd]. split; [by apply NoDup_keys_set|].
    apply Forall_set; [done|]. simpl. split; [apply NoDup_singleton|].
    constructor; [apply Hone | constructor].
Qed.

Lemma distinct_keys_add_each cs component cls h (reg : registry) :
  distinct_keys reg -> distinct_keys (add_each cs component cls h reg).1.
Proof.
  revert reg. induction cs as [|c cs IH]; intros reg Hd; simpl; [done|].
  destruct (_add_handler reg c component cls h) as [reg'|] eqn:E; [|done].
  apply IH. eapply distinct_keys_add_handler; eauto.
Qed.

Lemma distinct_keys_set_handler code component h (reg : registry) :
  distinct_keys reg -> distinct_keys (_set_handler code component h reg).1.
Proof.
  intros Hd. unfold _set_handler. destruct code as [c|cs].
  - destruct (_add_handler reg c component _ h) as [reg'|] eqn:E; [|done].
    eapply distinct_keys_add_handler; eauto.
  - pose proof (distinct_keys_add_each cs component (rsplit_dot (qualname h)) h reg Hd).
    by destruct (add_each cs component _ h reg).
Qed.

Lemma distinct_keys_registered (rs : list registration) :
  distinct_keys (registered rs).
Proof.
  unfold registered.
  assert (H0 : distinct_keys []) by (split; constructor).
  revert H0. generalize (@nil (option Z * list (option string * list (option Z * reg_entry)))).
  induction rs as [|r rs IH]; intros reg Hd; simpl; [done|].
  apply IH. by apply distinct_keys_set_handler.
Qed.


Lemma layer_lookup3 (reg : registry) k e c :
  distinct_keys reg ->
  layer reg k e c = option_list (lookup3 reg e (Some k) c).
Proof.
  intros Hd. unfold layer, lookup3.
  rewrite (all_nodup e reg) by apply Hd.
  destruct (Dict.get e reg) as [by_cls|] eqn:Ee; [|done].
  destruct (distinct_keys_get _ _ _ Hd Ee) as [Hnd Hall].
  simpl. rewrite app_nil_r.
  destruct (Dict.get (Some k) by_cls) as [by_comp|] eqn:Ec; [|done].
  rewrite all_nodup.
  - by destruct (Dict.get c by_comp).
  - apply get_Some_elem in Ec. rewrite Forall_forall in Hall. apply (Hall _ Ec).
Qed.

(** ** Traces of dispatch *)

Lemma continues_app (tr1 tr2 : list call) :
  continues tr1 -> continues tr2 -> continues (tr1 ++ tr2).
Proof. apply Forall_app_2. Qed.

Lemma handled_at_end_app (tr1 tr2 : list call) :
  continues tr1 -> handled_at_end tr2 -> handled_at_end (tr1 ++ tr2).
Proof.
  intros H1 (pre & c & -> & Hpre & Hc).
  exists (tr1 ++ pre), c. rewrite app_assoc.
  split; [done|]. split; [by apply continues_app | done].
Qed.

(** In a trace of either shape, a call that did not return [False] is the
    last one. *)
Lemma nothing_after_handled (tr pre post : list call) (c : call) :
  continues tr \/ handled_at_end tr ->
  tr = pre ++ c :: post -> c_result c ≠ RFalse -> post = [].
Proof.
  intros [Hc|(pre' & c' & -> & Hpre & Hc')] Heq Hres.
  - subst tr. apply Forall_app in Hc as [_ Hc].
    apply Forall_cons in Hc as [Hc _]. done.
  - destruct post as [|p post _] using rev_ind; [done|].
    rewrite app_comm_cons, app_assoc in Heq.
    apply app_inj_tail in Heq as [-> _].
    apply Forall_app in Hpre as [_ Hpre].
    apply Forall_cons in Hpre as [Hpre _]. done.
Qed.

Lemma try_handlers_trace (self : EventHandler.t) (e : Z) (idb : IdBlock)
    (pb : list byte) (l : list reg_entry) :
  let out := EventHandler.try_handlers self e idb pb l in
  map c_handler out.1 `prefix_of` entry_names l
  /\ match out.2 with
     | Ok true => handled_at_end out.1
     | Ok false => continues out.1 /\ map c_handler out.1 = entry_names l
     | Raise _ => continues out.1
     end.
Proof.
  induction l as [|[h t|h] l IH]; simpl.
  - split; [done|]. split; [constructor | done].
  - destruct (EventHandler._data t pb) as [d|err]; simpl.
    + destruct (is_not_False _) eqn:Er; simpl.
      * split; [by apply prefix_cons, prefix_nil|].
        eexists [], _. split; [done|]. split; [constructor|].
        intros E. simpl in E. by rewrite E in Er.
      * assert (Hr : run h (EventHandler.obj_name self) e idb d = RFalse)
          by (by destruct (run h _ e idb d)).
        destruct (EventHandler.try_handlers self e idb pb l) as [tr out];
          simpl in *.
        destruct IH as [Hp Ho]. split; [by apply prefix_cons|].
        destruct out as [[|]|err].
        -- apply (handled_at_end_app [_]); [|done]. by repeat constructor.
        -- destruct Ho as [Hc Hn]. split; [by constructor | by rewrite Hn].
        -- by constructor.
    + split; [apply prefix_nil | constructor].
  - split; [apply prefix_nil | constructor].
Qed.

(** The calls of [_dispatch]: first calls from the list of the component of
    the event, then calls from the wildcard list, which is only reached when
    every handler of the first list was called and returned [False]. *)
Lemma dispatch_trace (self : EventHandler.t) (tbl : table) (e : Z)
    (idb : IdBlock) (pb : list byte) :
  let out := EventHandler._dispatch self tbl e idb pb in
  let specific := entries (Some e) (Some (component (ib_self idb))) tbl in
  let wildcard := entries (Some e) None tbl in
  (exists tr1 tr2,
     out.1 = tr1 ++ tr2
     /\ map c_handler tr1 `prefix_of` entry_names specific
     /\ map c_handler tr2 `prefix_of` entry_names wildcard
     /\ (tr2 ≠ [] ->
         continues tr1 /\ map c_handler tr1 = entry_names specific))
  /\ match out.2 with
     | Ok (Some true) => handled_at_end out.1
     | _ => continues out.1
     end.
Proof.
  unfold EventHandler._dispatch, entries.
  destruct (Dict.get (Some e) tbl) as [hs|]; simpl.
  2:{ split; [|constructor]. exists [], []. repeat split; try done; constructor. }
  set (l1 := match Dict.get (Some (component (ib_self idb))) hs with
             | Some l => l | None => [] end).
  set (l2 := match Dict.get None hs with Some l => l | None => [] end).
  assert (E1 : match Dict.get (Some (component (ib_self idb))) hs with
               | Some l => EventHandler.try_handlers self e idb pb l
               | None => ([], Ok false)
               end = EventHandler.try_handlers self e idb pb l1).
  { unfold l1. by destruct (Dict.get (Some _) hs). }
  assert (E2 : match Dict.get None hs with
               | Some l => EventHandler.try_handlers self e idb pb l
               | None => ([], Ok false)
               end = EventHandler.try_handlers self e idb pb l2).
  { unfold l2. by destruct (Dict.get None hs). }
  rewrite E1, E2. clear E1 E2.
  pose proof (try_handlers_trace self e idb pb l1) as H1.
  pose proof (try_handlers_trace self e idb pb l2) as H2.
  destruct (EventHandler.try_handlers self e idb pb l1) as [tr1 r1].
  destruct (EventHandler.try_handlers self e idb pb l2) as [tr2 r2].
  simpl in *. destruct H1 as [Hp1 Ho1], H2 as [Hp2 Ho2].
  destruct r1 as [[|]|err1]; simpl.
  - split; [|done]. exists tr1, []. rewrite app_nil_r.
    repeat split; try done. apply prefix_nil.
  - destruct Ho1 as [Hc1 Hn1]. split.
    + exists tr1, tr2. by repeat split.
    + destruct r2 as [[|]|err2].
      * by apply handled_at_end_app.
      * apply continues_app; [done | apply Ho2].
      * by apply continues_app.
  - split; [|done]. exists tr1, []. rewrite app_nil_r.
    repeat split; try done. apply prefix_nil.
Qed.

Lemma dispatch_loop_trace
    (method : EventHandler.t -> list call * res (option bool))
    (objs : list EventHandler.t) :
  (forall obj, match (method obj).2 with
               | Ok (Some true) => handled_at_end (method obj).1
               | _ => continues (method obj).1
               end) ->
  continues (dispatch_loop method objs).1
  \/ handled_at_end (dispatch_loop method objs).1.
Proof.
  intros Hm. induction objs as [|obj objs IH]; simpl.
  - left. constructor.
  - specialize (Hm obj). destruct (method obj) as [tr r]. simpl in Hm.
    destruct (dispatch_loop method objs) as [tr' r']. simpl in IH.
    destruct r as [[[|]|]|err]; simpl; try by (left + right).
    + destruct IH; [left; by apply continues_app
                   | right; by apply handled_at_end_app].
    + destruct IH; [left; by apply continues_app
                   | right; by apply handled_at_end_app].
Qed.

(** C7: in the calls made for one event - by [toolbox_dispatch], by
    [wimp_dispatch] and by the handler loop of [message_dispatch] - a call
    whose result is anything but [False] ([None] included) is the last one:
    no handler of the same object and no handler of a later candidate is
    called after it. *)
Theorem no_handler_after_handled
    (get_object : Z -> option EventHandler.t) (ack : Z)
    (event : Z) (message : MessageInfo) (application : option EventHandler.t)
    (id_block : IdBlock) (poll_block : list byte) (cbs : reply_table)
    (tr pre post : list call) (c : call) :
  tr = (toolbox_dispatch get_object event application id_block poll_block).1
  \/ tr = (wimp_dispatch get_object event application id_block poll_block).1
  \/ tr = mo_calls (message_dispatch get_object ack message application
                      id_block poll_block cbs) ->
  tr = pre ++ c :: post ->
  c_result c ≠ RFalse ->
  post = [].
Proof.
  intros Htr. apply nothing_after_handled.
  assert (Hloop : forall tbl ev,
            let tr := (dispatch_loop
                         (fun obj => EventHandler._dispatch obj (tbl obj) ev
                                       id_block poll_block)
                         (_get_spaa get_object application id_block)).1 in
            continues tr \/ handled_at_end tr).
  { intros tbl ev. apply dispatch_loop_trace. intros obj.
    apply (dispatch_trace obj (tbl obj) ev id_block poll_block). }
  destruct Htr as [-> | [-> | ->]].
  - apply (Hloop EventHandler.toolbox_handlers).
  - apply (Hloop EventHandler.wimp_handlers).
  - pose proof (Hloop EventHandler.message_handlers (mi_code message)) as Hm.
    unfold message_dispatch, message_bounce, message_handlers_loop, stopped.
    unfold EventHandler.message_dispatch.
    repeat match goal with
           | |- context [if ?b then _ else _] => destruct b
           | |- context [let '(_, _) := ?x in _] => destruct x as [[? ?] ?]
           | |- context [let '(_, _) := ?x in _] => destruct x as [? ?]
           | |- context [match ?r with Ok _ => _ | Raise _ => _ end] => destruct r
           end; simpl in *; try done; left; constructor.
Qed.

(** ** The calls of a dispatch, exactly *)

Lemma until_handled_continues (cs : list call) :
  continues cs -> until_handled cs = cs.
Proof.
  induction 1 as [|c cs Hc _ IH]; simpl; [done|]. by rewrite Hc, IH.
Qed.

Lemma until_handled_app (a b : list call) :
  continues a -> until_handled (a ++ b) = a ++ until_handled b.
Proof.
  induction 1 as [|c cs Hc _ IH]; simpl; [done|]. by rewrite Hc, IH.
Qed.

Lemma until_handled_stops (a b : list call) :
  ~ continues a -> until_handled (a ++ b) = until_handled a.
Proof.
  induction a as [|c a IH]; simpl; intros Hn.
  - destruct Hn. constructor.
  - destruct (is_not_False (c_result c)) eqn:E; [done|].
    rewrite IH; [done|]. intros Ha. apply Hn. constructor; [|done].
    by destruct (c_result c).
Qed.

(** One loop of [_dispatch] makes the calls of its entries in the order of
    the list and stops after the first call that did not return [False]; it
    runs to its end exactly when every entry could be called and every call
    returned [False]. *)
Lemma try_handlers_exact (self : EventHandler.t) (e : Z) (idb : IdBlock)
    (pb : list byte) (l : list reg_entry) :
  let out := EventHandler.try_handlers self e idb pb l in
  let cs := callable self e idb pb l in
  out.1 = until_handled cs
  /\ (out.2 = Ok false <-> length cs = length l /\ continues cs).
Proof.
  induction l as [|[h t|h] l IH]; simpl.
  - split; [done|]. split; [by split; [|constructor] | done].
  - destruct (EventHandler._data t pb) as [d|err]; simpl.
    + destruct (is_not_False _) eqn:Er; simpl.
      * split; [done|]. split; [done|]. intros [_ Hc].
        apply Forall_cons in Hc as [Hc _]. simpl in Hc. by rewrite Hc in Er.
      * destruct (EventHandler.try_handlers self e idb pb l) as [tr out].
        simpl in *. destruct IH as [-> IH]. split; [done|].
        rewrite IH. split.
        -- intros [Hl Hc]. split; [by rewrite Hl|].
           constructor; [|done]. simpl. by destruct (run h _ e idb d).
        -- intros [Hl Hc]. apply Forall_cons in Hc as [_ Hc].
           split; [by injection Hl | done].
    + split; [done|]. split; [done | by intros [? _]].
  - split; [done|]. split; [done | by intros [? _]].
Qed.

(** The calls of [_dispatch] on one object: the calls of the list of the
    event's component, then, when that list was walked to its end, those of
    the wildcard list, cut after the first call that did not return
    [False]. *)
Lemma dispatch_exact (self : EventHandler.t) (tbl : table) (e : Z)
    (idb : IdBlock) (pb : list byte) :
  let specific := entries (Some e) (Some (component (ib_self idb))) tbl in
  let wildcard := entries (Some e) None tbl in
  (EventHandler._dispatch self tbl e idb pb).1
  = until_handled
      (callable self e idb pb specific
       ++ (if decide (length (callable self e idb pb specific) = length specific)
           then callable self e idb pb wildcard else [])).
Proof.
  unfold EventHandler._dispatch, entries.
  destruct (Dict.get (Some e) tbl) as [hs|]; simpl; [|done].
  set (l1 := match Dict.get (Some (component (ib_self idb))) hs with
             | Some l => l | None => [] end).
  set (l2 := match Dict.get None hs with Some l => l | None => [] end).
  assert (E1 : match Dict.get (Some (component (ib_self idb))) hs with
               | Some l => EventHandler.try_handlers self e idb pb l
               | None => ([], Ok false)
               end = EventHandler.try_handlers self e idb pb l1).
  { unfold l1. by destruct (Dict.get (Some _) hs). }
  assert (E2 : match Dict.get None hs with
               | Some l => EventHandler.try_handlers self e idb pb l
               | None => ([], Ok false)
               end = EventHandler.try_handlers self e idb pb l2).
  { unfold l2. by destruct (Dict.get None hs). }
  rewrite E1, E2. clear E1 E2.
  pose proof (try_handlers_exact self e idb pb l1) as H1.
  pose proof (try_handlers_exact self e idb pb l2) as H2.
  destruct (EventHandler.try_handlers self e idb pb l1) as [tr1 r1].
  destruct (EventHandler.try_handlers self e idb pb l2) as [tr2 r2].
  simpl in *. destruct H1 as [-> H1], H2 as [-> _].
  assert (Hcase : r1 = Ok false \/ r1 ≠ Ok false).
  { destruct r1 as [[|]|]; auto. }
  destruct Hcase as [->|Hne].
  - destruct (proj1 H1 eq_refl) as [Hl Hc]. simpl.
    rewrite decide_True by done.
    by rewrite until_handled_app, until_handled_continues.
  - assert (Htr : (let '(tr2', r2') := (until_handled (callable self e idb pb l2), r2) in
                   match r1 with
                   | Ok true => (until_handled (callable self e idb pb l1), Ok (Some true))
                   | Ok false => (until_handled (callable self e idb pb l1) ++ tr2',
                                  match r2' with
                                  | Ok true => Ok (Some true)
                                  | Ok false => Ok None
                                  | Raise e0 => Raise e0
                                  end)
                   | Raise e0 => (until_handled (callable self e idb pb l1), Raise e0)
                   end).1 = until_handled (callable self e idb pb l1)).
    { by destruct r1 as [[|]|]. }
    destruct (decide (length (callable self e idb pb l1) = length l1)) as [Hl|Hl].
    + rewrite until_handled_stops.
      * by destruct r1 as [[|]|].
      * intros Hc. apply Hne, H1. by split.
    + rewrite app_nil_r. by destruct r1 as [[|]|].
Qed.

(** ** Registration: what is stored, what is left alone *)

Lemma add_handler_valid (reg : registry) (ca : code_arg) (e c : option Z)
    (cls : option string) (h : handler) :
  code_key ca = Some e ->
  _add_handler reg ca c cls h
  = Ok match Dict.get e reg with
       | Some by_cls =>
           match Dict.get cls by_cls with
           | Some by_comp =>
               Dict.set e (Dict.set cls (Dict.set c (Bare h) by_comp) by_cls) reg
           | None =>
               Dict.set e
                 (Dict.set cls [(c, Pair h (code_event_type ca))] by_cls) reg
           end
       | None => Dict.set e [(cls, [(c, Pair h (code_event_type ca))])] reg
       end.
Proof.
  intros Hkey. unfold _add_handler.
  destruct ca; simpl in Hkey; try done; injection Hkey as <-; reflexivity.
Qed.

Lemma add_handler_invalid (reg : registry) (ca : code_arg) (c : option Z)
    (cls : option string) (h : handler) :
  code_key ca = None ->
  exists msg, _add_handler reg ca c cls h = Raise msg.
Proof.
  intros Hkey. unfold _add_handler.
  destruct ca; simpl in Hkey; try done; by eexists.
Qed.

Lemma lookup3_add_handler_same (reg reg' : registry) (ca : code_arg)
    (e c : option Z) (cls : option string) (h : handler) :
  code_key ca = Some e ->
  _add_handler reg ca c cls h = Ok reg' ->
  lookup3 reg' e cls c
  = Some match class_dict reg e cls with
         | Some _ => Bare h
         | None => Pair h (code_event_type ca)
         end.
Proof.
  intros Hkey. rewrite (add_handler_valid _ _ e) by done. intros [= <-].
  unfold lookup3, class_dict.
  destruct (Dict.get e reg) as [by_cls|] eqn:Ee.
  - destruct (Dict.get cls by_cls) as [by_comp|] eqn:Ec;
      rewrite !get_set_eq; simpl; by repeat (rewrite decide_True by done; simpl).
  - rewrite get_set_eq. simpl. by repeat (rewrite decide_True by done; simpl).
Qed.

Lemma lookup3_add_handler_other (reg reg' : registry) (ca : code_arg)
    (c : option Z) (cls : option string) (h : handler)
    (e' : option Z) (cls' : option string) (c' : option Z) :
  _add_handler reg ca c cls h = Ok reg' ->
  code_key ca ≠ Some e' \/ cls' ≠ cls \/ c' ≠ c ->
  lookup3 reg' e' cls' c' = lookup3 reg e' cls' c'.
Proof.
  destruct (code_key ca) as [e|] eqn:Hkey.
  2:{ destruct (add_handler_invalid reg ca c cls h Hkey) as [msg ->]. done. }
  rewrite (add_handler_valid _ _ e) by done. intros [= <-] Hne.
  unfold lookup3.
  destruct (decide (e = e')) as [<-|He].
  2:{ destruct (Dict.get e reg) as [by_cls|];
        [destruct (Dict.get cls by_cls)|]; by rewrite get_set_ne. }
  assert (Hcc : cls = cls' -> c ≠ c').
  { intros <- <-. destruct Hne as [?|[?|?]]; congruence. }
  destruct (Dict.get e reg) as [by_cls|] eqn:Ee.
  - destruct (decide (cls = cls')) as [<-|Hc].
    + specialize (Hcc eq_refl).
      destruct (Dict.get cls by_cls) as [by_comp|] eqn:Ec;
        rewrite !get_set_eq; [by rewrite get_set_ne|].
      simpl. by rewrite decide_False.
    + destruct (Dict.get cls by_cls) as [by_comp|] eqn:Ec;
        by rewrite get_set_eq, get_set_ne.
  - rewrite get_set_eq. simpl.
    destruct (decide (cls = cls')) as [<-|Hc]; [|done].
    simpl. by rewrite decide_False by auto.
Qed.

(** X1: one use of a decorator with an accepted code returns the function
    and stores it under its event, its class and the component filter:
    with its event type when the class had no dictionary for the event, as
    the function alone when it had one.  Every other triple of the registry
    reads as before. *)
Theorem set_handler_lookup (reg : registry) (ca : code_arg) (e c : option Z)
    (h : handler) :
  code_key ca = Some e ->
  (_set_handler (One ca) c h reg).2 = Ok h
  /\ lookup3 (_set_handler (One ca) c h reg).1 e (rsplit_dot (qualname h)) c
     = Some match class_dict reg e (rsplit_dot (qualname h)) with
            | Some _ => Bare h
            | None => Pair h (code_event_type ca)
            end
  /\ forall e' cls' c',
       (e', cls', c') ≠ (e, rsplit_dot (qualname h), c) ->
       lookup3 (_set_handler (One ca) c h reg).1 e' cls' c'
       = lookup3 reg e' cls' c'.
Proof.
  intros Hkey. unfold _set_handler.
  destruct (_add_handler reg ca c (rsplit_dot (qualname h)) h) as [reg'|msg] eqn:E.
  2:{ rewrite (add_handler_valid _ _ e) in E by done. discriminate. }
  simpl. split; [done|]. split.
  - by apply (lookup3_add_handler_same reg reg' ca).
  - intros e' cls' c' Hne.
    apply (lookup3_add_handler_other reg reg' ca c (rsplit_dot (qualname h)) h);
      [done|].
    rewrite Hkey.
    destruct (decide (e = e')) as [->|]; [|left; congruence].
    destruct (decide (cls' = rsplit_dot (qualname h))) as [->|]; [|tauto].
    destruct (decide (c' = c)) as [->|]; [done | tauto].
Qed.

Lemma set_handler_lookup_witness :
  lookup3
    (_set_handler (One (CodeEvent ToolboxEvent)) (Some 4%Z)
       (Example.returning "App.shown" RNone) Example._toolbox_handlers).1
    None (Some "App") (Some 4%Z)
  = Some (Pair (Example.returning "App.shown" RNone) (Some ToolboxEvent))
  /\ lookup3
       (_set_handler (One (CodeEvent ToolboxEvent)) (Some 4%Z)
          (Example.returning "App.shown" RNone) Example._toolbox_handlers).1
       (Some 5%Z) (Some "App") None
     = Some (Pair Example.h4 None).
Proof.
  destruct (set_handler_lookup Example._toolbox_handlers (CodeEvent ToolboxEvent)
              None (Some 4%Z) (Example.returning "App.shown" RNone) eq_refl)
    as (_ & Hnew & Hold).
  split.
  - exact Hnew.
  - rewrite (Hold (Some 5%Z) (Some "App") None) by discriminate. reflexivity.
Defined.

Lemma add_each_app (pre post : list code_arg) (c : option Z)
    (cls : option string) (h : handler) (reg : registry) :
  Forall (fun x => code_key x ≠ None) pre ->
  add_each (pre ++ post) c cls h reg
  = add_each post c cls h (add_each pre c cls h reg).1
  /\ (add_each pre c cls h reg).2 = Ok ().
Proof.
  intros Hpre. revert reg.
  induction Hpre as [|x pre Hx Hpre IH]; intros reg; simpl; [done|].
  destruct (code_key x) as [e|] eqn:Hkey; [|done].
  rewrite (add_handler_valid _ _ e) by done. apply IH.
Qed.

(** X2: a code that is neither an integer nor an [Event] class is refused
    with an exception and nothing is stored for it; in a list of codes the
    codes before the first refused one stay registered and the codes after
    it are never looked at. *)
Theorem set_handler_refused_code (reg : registry) (ca : code_arg)
    (pre post : list code_arg) (c : option Z) (h : handler) :
  code_key ca = None ->
  Forall (fun x => code_key x ≠ None) pre ->
  (exists err, _set_handler (One ca) c h reg = (reg, Raise err))
  /\ (_set_handler (Several pre) c h reg).2 = Ok h
  /\ exists err,
       _set_handler (Several (pre ++ ca :: post)) c h reg
       = ((_set_handler (Several pre) c h reg).1, Raise err).
Proof.
  intros Hkey Hpre. unfold _set_handler. split; [|split].
  - destruct (add_handler_invalid reg ca c (rsplit_dot (qualname h)) h Hkey)
      as [err ->]. by eexists.
  - destruct (add_each_app pre [] c (rsplit_dot (qualname h)) h reg Hpre) as [_ E].
    destruct (add_each pre c _ h reg) as [reg' r]. simpl in *. by rewrite E.
  - destruct (add_each_app pre (ca :: post) c (rsplit_dot (qualname h)) h reg Hpre)
      as [-> _].
    destruct (add_each pre c _ h reg) as [reg' r]. simpl.
    destruct (add_handler_invalid reg' ca c (rsplit_dot (qualname h)) h Hkey)
      as [err ->]. by eexists.
Qed.

Lemma set_handler_refused_code_witness :
  exists err,
    _set_handler (Several [CodeInt 8; CodeOtherClass; CodeInt 9]) None
      Example.h4 Example._toolbox_handlers
    = ((_set_handler (Several [CodeInt 8]) None Example.h4
          Example._toolbox_handlers).1, Raise err).
Proof.
  apply (set_handler_refused_code Example._toolbox_handlers CodeOtherClass
           [CodeInt 8] [CodeInt 9] None Example.h4 eq_refl).
  repeat constructor. discriminate.
Defined.

Lemma keys_set_elem {K V : Type} `{EqDecision K} (k k' : K) (v : V)
    (d : list (K * V)) :
  k' ∈ Dict.keys (Dict.set k v d) <-> k' = k \/ k' ∈ Dict.keys d.
Proof.
  rewrite keys_set. destruct (Dict.mem k d) eqn:E.
  - apply mem_keys in E. split; [by right | by intros [->|?]].
  - rewrite elem_of_app, list_elem_of_singleton. tauto.
Qed.

Lemma keys_add_handler (reg reg' : registry) (ca : code_arg) (c : option Z)
    (cls : option string) (h : handler) (k : option Z) :
  _add_handler reg ca c cls h = Ok reg' ->
  k ∈ Dict.keys reg' <-> code_key ca = Some k \/ k ∈ Dict.keys reg.
Proof.
  destruct (code_key ca) as [e|] eqn:Hkey.
  2:{ destruct (add_handler_invalid reg ca c cls h Hkey) as [msg ->]. done. }
  rewrite (add_handler_valid _ _ e) by done. intros [= <-].
  destruct (Dict.get e reg) as [by_cls|]; [destruct (Dict.get cls by_cls)|];
    rewrite keys_set_elem;
    (split; (intros [?|?]; [left; congruence | by right])).
Qed.

Lemma keys_add_each (cs : list code_arg) (c : option Z) (cls : option string)
    (h : handler) (reg : registry) (k : option Z) :
  k ∈ Dict.keys reg -> k ∈ Dict.keys (add_each cs c cls h reg).1.
Proof.
  revert reg. induction cs as [|x cs IH]; intros reg Hk; simpl; [done|].
  destruct (_add_handler reg x c cls h) as [reg'|] eqn:E; [|done].
  apply IH. apply (keys_add_handler reg reg' x c cls h k E). by right.
Qed.

(** X3: [registered_wimp_events] lists an event from the moment a handler
    is registered for it, and no later registration removes an event from
    the list. *)
Theorem registered_events_grow (_wimp_handlers : registry) (code : codes)
    (c : option Z) (h : handler) (k : option Z) :
  k ∈ registered_wimp_events _wimp_handlers
  \/ (exists ca, code = One ca /\ code_key ca = Some k) ->
  k ∈ registered_wimp_events (_set_handler code c h _wimp_handlers).1.
Proof.
  unfold registered_wimp_events, _set_handler. intros [Hk|(ca & -> & Hkey)].
  - destruct code as [ca|cs].
    + destruct (_add_handler _ ca c _ h) as [reg'|] eqn:E; [|done].
      apply (keys_add_handler _ reg' ca c _ h k E). by right.
    + pose proof (keys_add_each cs c (rsplit_dot (qualname h)) h _ k Hk).
      by destruct (add_each cs c _ h _).
  - destruct (_add_handler _ ca c _ h) as [reg'|] eqn:E.
    + apply (keys_add_handler _ reg' ca c _ h k E). by left.
    + rewrite (add_handler_valid _ _ k) in E by done. discriminate.
Qed.

Lemma registered_events_grow_witness :
  Some 17%Z
  ∈ registered_wimp_events
      (_set_handler (One (CodeInt 17)) None Example.h4 Example._toolbox_handlers).1
  /\ Some 5%Z
     ∈ registered_wimp_events
         (_set_handler (One (CodeInt 17)) None Example.h4
            Example._toolbox_handlers).1.
Proof.
  split.
  - apply registered_events_grow. right. exists (CodeInt 17). by split.
  - apply registered_events_grow. left. apply elem_of_cons. by left.
Defined.

(** ** The last registration for an event, a class and a component *)

Lemma set_handler_add_each (code : codes) (c : option Z) (h : handler)
    (reg : registry) :
  (_set_handler code c h reg).1
  = (add_each (code_list code) c (rsplit_dot (qualname h)) h reg).1.
Proof.
  unfold _set_handler. destruct code as [ca|cs]; simpl.
  - by destruct (_add_handler reg ca c _ h).
  - by destruct (add_each cs c _ h reg).
Qed.

Lemma holds_add_handler_same (reg reg' : registry) (ca : code_arg)
    (e c : option Z) (cls : option string) (h : handler) :
  code_key ca = Some e ->
  _add_handler reg ca c cls h = Ok reg' ->
  holds_handler reg' e cls c h.
Proof.
  intros Hk E. eexists. split.
  - by apply (lookup3_add_handler_same reg reg' ca).
  - by destruct (class_dict reg e cls).
Qed.

Lemma holds_add_handler_keep (reg reg' : registry) (ca : code_arg)
    (e c : option Z) (cls : option string) (h : handler) :
  _add_handler reg ca c cls h = Ok reg' ->
  holds_handler reg e cls c h -> holds_handler reg' e cls c h.
Proof.
  intros E Hh. destruct (decide (code_key ca = Some e)) as [Hk|Hk].
  - by eapply holds_add_handler_same.
  - destruct Hh as (entry & Hl & He). exists entry. split; [|done].
    rewrite (lookup3_add_handler_other reg reg' ca c cls h); [done | done|].
    by left.
Qed.

Lemma holds_add_each_keep (cs : list code_arg) (e c : option Z)
    (cls : option string) (h : handler) (reg : registry) :
  holds_handler reg e cls c h ->
  holds_handler (add_each cs c cls h reg).1 e cls c h.
Proof.
  revert reg. induction cs as [|x cs IH]; intros reg Hh; simpl; [done|].
  destruct (_add_handler reg x c cls h) as [reg'|] eqn:E; [|done].
  apply IH. by eapply holds_add_handler_keep.
Qed.

(** A code of the list whose predecessors are all accepted is reached, and
    what it stores stays: the codes after it store the same function or
    write elsewhere. *)
Lemma holds_add_each_stores (pre post : list code_arg) (ca : code_arg)
    (e c : option Z) (cls : option string) (h : handler) (reg : registry) :
  Forall (fun x => code_key x ≠ None) pre ->
  code_key ca = Some e ->
  holds_handler (add_each (pre ++ ca :: post) c cls h reg).1 e cls c h.
Proof.
  intros Hpre Hk.
  destruct (add_each_app pre (ca :: post) c cls h reg Hpre) as [-> _].
  simpl.
  destruct (_add_handler (add_each pre c cls h reg).1 ca c cls h)
    as [reg'|err] eqn:E.
  - apply holds_add_each_keep. by eapply holds_add_handler_same.
  - rewrite (add_handler_valid _ _ e) in E by done. discriminate.
Qed.

Lemma lookup3_add_each_other (cs : list code_arg) (c : option Z)
    (cls : option string) (h : handler) (reg : registry)
    (e' : option Z) (cls' : option string) (c' : option Z) :
  Some e' ∉ map code_key cs \/ cls' ≠ cls \/ c' ≠ c ->
  lookup3 (add_each cs c cls h reg).1 e' cls' c' = lookup3 reg e' cls' c'.
Proof.
  revert reg. induction cs as [|x cs IH]; intros reg Hne; simpl; [done|].
  destruct (_add_handler reg x c cls h) as [reg'|] eqn:E; [|done].
  rewrite IH.
  - apply (lookup3_add_handler_other reg reg' x c cls h); [done|].
    destruct Hne as [Hne|Hne]; [left | by right].
    intros Hk. apply Hne. simpl. rewrite Hk. apply elem_of_cons. by left.
  - destruct Hne as [Hne|Hne]; [left | by right].
    intros Hin. apply Hne. simpl. apply elem_of_cons. by right.
Qed.

Lemma lookup3_untouched (r : registration) (reg : registry) (e : option Z)
    (cls : string) (c : option Z) :
  ~ touches r e cls c ->
  lookup3 (_set_handler (r_code r) (r_component r) (r_handler r) reg).1
    e (Some cls) c
  = lookup3 reg e (Some cls) c.
Proof.
  intros Hn. rewrite set_handler_add_each. apply lookup3_add_each_other.
  destruct (decide (Some e ∈ map code_key (code_list (r_code r)))) as [H1|H1];
    [|by left].
  destruct (decide (Some cls = rsplit_dot (qualname (r_handler r)))) as [H2|H2];
    [|right; by left].
  destruct (decide (c = r_component r)) as [H3|H3]; [|right; by right].
  destruct Hn. by split; [|split].
Qed.

Lemma holds_untouched (after : list registration) (reg : registry)
    (e : option Z) (cls : string) (c : option Z) (h : handler) :
  Forall (fun r' => ~ touches r' e cls c) after ->
  holds_handler reg e (Some cls) c h ->
  holds_handler
    (fold_left
       (fun handlers r =>
          fst (_set_handler (r_code r) (r_component r) (r_handler r) handlers))
       after reg)
    e (Some cls) c h.
Proof.
  intros Ha. revert reg.
  induction Ha as [|r after Hr _ IH]; intros reg Hh; simpl; [done|].
  apply IH. destruct Hh as (entry & Hl & He). exists entry. split; [|done].
  by rewrite lookup3_untouched.
Qed.

(** The registry holds, for an event, a class and a component filter, the
    function of the last use of a decorator that names the three. *)
Lemma last_registration_holds (rs : list registration) (e : option Z)
    (cls : string) (c : option Z) (r : registration) :
  last_registration rs e cls c r ->
  holds_handler (registered rs) e (Some cls) c (r_handler r).
Proof.
  intros (before & after & -> & (Hst & Hc & Hcls) & Hafter).
  unfold registered. rewrite fold_left_app. simpl.
  apply holds_untouched; [done|].
  rewrite set_handler_add_each.
  destruct Hst as (pre & ca & post & -> & Hpre & Hk).
  rewrite Hcls, Hc. by apply holds_add_each_stores.
Qed.

(** ** Whose handlers an object calls *)

Lemma elem_of_set {K V : Type} `{EqDecision K} (k k' : K) (v v' : V)
    (d : list (K * V)) :
  (k', v') ∈ Dict.set k v d -> (k', v') = (k, v) \/ (k', v') ∈ d.
Proof.
  induction d as [|[k0 v0] d IH]; simpl.
  - rewrite list_elem_of_singleton. by left.
  - destruct (decide (k0 = k)) as [->|Hne]; rewrite !elem_of_cons.
    + intros [?|?]; [by left | right; by right].
    + intros [?|H]; [right; by left|]. destruct (IH H); [by left | right; by right].
Qed.

Lemma elem_of_all {K V : Type} `{EqDecision K} (k : K) (v : V)
    (d : list (K * V)) :
  v ∈ Dict.all k d -> (k, v) ∈ d.
Proof.
  induction d as [|[k0 v0] d IH]; simpl; [by intros ?%elem_of_nil|].
  destruct (decide (k0 = k)) as [->|Hne]; rewrite ?elem_of_cons.
  - intros [->|H]; [by left | right; by apply IH].
  - intros H. right. by apply IH.
Qed.

Lemma under_own_class_add_handler (reg reg' : registry) (ca : code_arg)
    (c : option Z) (h : handler) :
  under_own_class reg ->
  _add_handler reg ca c (rsplit_dot (qualname h)) h = Ok reg' ->
  under_own_class reg'.
Proof.
  intros Hinv.
  destruct (code_key ca) as [e|] eqn:Hkey.
  2:{ destruct (add_handler_invalid reg ca c (rsplit_dot (qualname h)) h Hkey)
        as [msg ->]. done. }
  rewrite (add_handler_valid _ _ e) by done. intros [= <-].
  intros e' by_cls' cls' by_comp' c' entry He Hc Hentry.
  destruct (Dict.get e reg) as [by_cls|] eqn:Ee.
  - apply get_Some_elem in Ee.
    destruct (Dict.get (rsplit_dot (qualname h)) by_cls) as [by_comp|] eqn:Ec.
    + apply get_Some_elem in Ec.
      apply elem_of_set in He as [[= -> ->]|He]; [|by eapply Hinv].
      apply elem_of_set in Hc as [[= -> ->]|Hc]; [|by eapply Hinv].
      apply elem_of_set in Hentry as [[= -> ->]|Hentry]; [done|by eapply Hinv].
    + apply elem_of_set in He as [[= -> ->]|He]; [|by eapply Hinv].
      apply elem_of_set in Hc as [[= -> ->]|Hc]; [|by eapply Hinv].
      apply list_elem_of_singleton in Hentry as [= -> ->]. done.
  - apply elem_of_set in He as [[= -> ->]|He]; [|by eapply Hinv].
    apply list_elem_of_singleton in Hc as [= -> ->].
    apply list_elem_of_singleton in Hentry as [= -> ->]. done.
Qed.

Lemma under_own_class_set_handler (code : codes) (c : option Z) (h : handler)
    (reg : registry) :
  under_own_class reg -> under_own_class (_set_handler code c h reg).1.
Proof.
  intros Hinv. unfold _set_handler. destruct code as [ca|cs].
  - destruct (_add_handler reg ca c _ h) as [reg'|] eqn:E; [|done].
    by eapply under_own_class_add_handler.
  - assert (H : under_own_class (add_each cs c (rsplit_dot (qualname h)) h reg).1).
    { revert reg Hinv. induction cs as [|x cs IH]; intros reg Hinv; simpl; [done|].
      destruct (_add_handler reg x c _ h) as [reg'|] eqn:E; [|done].
      apply IH. by eapply under_own_class_add_handler. }
    by destruct (add_each cs c _ h reg).
Qed.

Lemma under_own_class_registered (rs : list registration) :
  under_own_class (registered rs).
Proof.
  unfold registered.
  assert (H0 : under_own_class []).
  { intros e by_cls cls by_comp c entry He. by apply elem_of_nil in He. }
  revert H0.
  generalize (@nil (option Z * list (option string * list (option Z * reg_entry)))).
  induction rs as [|r rs IH]; intros reg Hinv; simpl; [done|].
  apply IH. by apply under_own_class_set_handler.
Qed.

Lemma layer_class (reg : registry) (k : string) (e c : option Z)
    (entry : reg_entry) :
  under_own_class reg -> entry ∈ layer reg k e c ->
  rsplit_dot (qualname (entry_handler entry)) = Some k.
Proof.
  intros Hinv Hin. unfold layer in Hin.
  apply list_elem_of_In, in_flat_map in Hin as (by_cls & Hcls & Hin).
  apply list_elem_of_In, elem_of_all in Hcls.
  destruct (Dict.get (Some k) by_cls) as [by_comp|] eqn:Ek; [|done].
  apply get_Some_elem in Ek. apply list_elem_of_In, elem_of_all in Hin.
  by eapply Hinv.
Qed.

Lemma try_handlers_self (self : EventHandler.t) (e : Z) (idb : IdBlock)
    (pb : list byte) (l : list reg_entry) :
  Forall (fun c => c_self c = EventHandler.obj_name self)
    (EventHandler.try_handlers self e idb pb l).1.
Proof.
  induction l as [|[h t|h] l IH]; simpl; [constructor| |constructor].
  destruct (EventHandler._data t pb) as [d|err]; [|constructor].
  destruct (is_not_False _); [by repeat constructor|].
  destruct (EventHandler.try_handlers self e idb pb l). simpl in *.
  by constructor.
Qed.

(** Each call of [_dispatch] is a call of an entry of the table, made with
    the object itself as receiver. *)
Lemma dispatch_calls (self : EventHandler.t) (tbl : table) (e : Z)
    (idb : IdBlock) (pb : list byte) (c : call) :
  c ∈ (EventHandler._dispatch self tbl e idb pb).1 ->
  c_self c = EventHandler.obj_name self
  /\ exists comp entry,
       entry ∈ entries (Some e) comp tbl
       /\ c_handler c = qualname (entry_handler entry).
Proof.
  intros Hin. split.
  - revert Hin. unfold EventHandler._dispatch.
    destruct (Dict.get (Some e) tbl) as [hs|]; [|by intros ?%elem_of_nil].
    set (t1 := match Dict.get (Some (component (ib_self idb))) hs with
               | Some l => EventHandler.try_handlers self e idb pb l
               | None => ([], Ok false) end).
    set (t2 := match Dict.get None hs with
               | Some l => EventHandler.try_handlers self e idb pb l
               | None => ([], Ok false) end).
    assert (H1 : Forall (fun c => c_self c = EventHandler.obj_name self) t1.1).
    { unfold t1. destruct (Dict.get (Some _) hs); [apply try_handlers_self|constructor]. }
    assert (H2 : Forall (fun c => c_self c = EventHandler.obj_name self) t2.1).
    { unfold t2. destruct (Dict.get None hs); [apply try_handlers_self|constructor]. }
    destruct t1 as [tr1 r1], t2 as [tr2 r2]. simpl in *.
    rewrite Forall_forall in H1, H2.
    destruct r1 as [[|]|]; simpl; [by apply H1| |by apply H1].
    rewrite elem_of_app. intros [?|?]; [by apply H1 | by apply H2].
  - destruct (dispatch_trace self tbl e idb pb) as [(tr1 & tr2 & Htr & Hp1 & Hp2 & _) _].
    rewrite Htr, elem_of_app in Hin.
    assert (Hnames : forall tr l, map c_handler tr `prefix_of` entry_names l ->
              c ∈ tr -> exists entry, entry ∈ l
                /\ c_handler c = qualname (entry_handler entry)).
    { intros tr l [k Hk] Hc.
      assert (Hq : c_handler c ∈ entry_names l).
      { rewrite Hk, elem_of_app. left. apply list_elem_of_fmap. by exists c. }
      apply list_elem_of_fmap in Hq as (entry & Hq & Hentry). by exists entry. }
    destruct Hin as [Hin|Hin].
    + destruct (Hnames _ _ Hp1 Hin) as (entry & ? & ?). by eexists _, entry.
    + destruct (Hnames _ _ Hp2 Hin) as (entry & ? & ?). by eexists _, entry.
Qed.

(** X4: whatever has been registered, a handler an object calls - for a
    toolbox event, a Wimp event or a message - is called with the object as
    [self], and the part of its [__qualname__] before the last dot is the
    [__qualname__] of a class of the object's class chain.  A function
    whose [__qualname__] has no dot, or names a class under a name that no
    class of the chain has, is never called. *)
Theorem only_handlers_of_own_classes (rs1 rs2 rs3 : list registration)
    (nm : string) (mro : list string) (e : Z) (idb : IdBlock) (pb : list byte)
    (c : call) :
  c ∈ (EventHandler.toolbox_dispatch
         (EventHandler.init nm mro (registered rs1) (registered rs2)
            (registered rs3)) e idb pb).1
      ++ (EventHandler.wimp_dispatch
            (EventHandler.init nm mro (registered rs1) (registered rs2)
               (registered rs3)) e idb pb).1
      ++ (EventHandler.message_dispatch
            (EventHandler.init nm mro (registered rs1) (registered rs2)
               (registered rs3)) e idb pb).1 ->
  c_self c = nm
  /\ exists k, k ∈ mro /\ rsplit_dot (c_handler c) = Some k.
Proof.
  set (self := EventHandler.init nm mro (registered rs1) (registered rs2)
                 (registered rs3)).
  pose proof (init_tables nm mro (registered rs1) (registered rs2)
                (registered rs3)) as Ht.
  cbv zeta in Ht. destruct Ht as (Hnm & _).
  assert (Hcls : forall reg tbl,
            under_own_class reg ->
            (forall ev comp, entries ev comp tbl
                             = flat_map (fun k => layer reg k ev comp) mro) ->
            c ∈ (EventHandler._dispatch self tbl e idb pb).1 ->
            c_self c = nm /\ exists k, k ∈ mro /\ rsplit_dot (c_handler c) = Some k).
  { intros reg tbl Hinv Hent Hc.
    apply dispatch_calls in Hc as (Hself & comp & entry & Hentry & Hq).
    split; [by rewrite Hself|].
    rewrite Hent in Hentry.
    apply list_elem_of_In, in_flat_map in Hentry as (k & Hk & Hentry).
    exists k. split; [by apply list_elem_of_In|].
    rewrite Hq. apply (layer_class reg k (Some e) comp); [done|].
    by apply list_elem_of_In. }
  rewrite !elem_of_app. intros [Hc|[Hc|Hc]].
  - apply (Hcls (registered rs1) (EventHandler.toolbox_handlers self));
      [apply under_own_class_registered| |done].
    intros ev comp. apply (init_entries nm mro _ _ _ ev comp).
  - apply (Hcls (registered rs2) (EventHandler.wimp_handlers self));
      [apply under_own_class_registered| |done].
    intros ev comp. apply (init_entries nm mro _ _ _ ev comp).
  - apply (Hcls (registered rs3) (EventHandler.message_handlers self));
      [apply under_own_class_registered| |done].
    intros ev comp. apply (init_entries nm mro _ _ _ ev comp).
Qed.

Lemma only_handlers_of_own_classes_witness :
  exists k, k ∈ ["B"; "A"; "EventHandler"; "object"]
            /\ rsplit_dot "B.h2" = Some k.
Proof.
  apply (only_handlers_of_own_classes Example.registrations [] [] "b"
           ["B"; "A"; "EventHandler"; "object"] 5 Example.id_block []
           {| c_self := "b"; c_handler := "B.h2"; c_result := RNone |}).
  apply elem_of_app. left. apply elem_of_cons. right. apply elem_of_cons. by left.
Defined.

Lemma no_handler_after_handled_witness :
  (toolbox_dispatch Example.get_object 5 (Some Example.app) Example.id_block []).1
  = [{| c_self := "b"; c_handler := "A.h1"; c_result := RFalse |}]
    ++ {| c_self := "b"; c_handler := "B.h2"; c_result := RNone |} :: []
  /\ map c_handler
       (EventHandler.toolbox_dispatch Example.app 5 Example.id_block []).1
     = ["App.h4"]
  /\ @nil call = [].
Proof.
  split; [reflexivity|]. split; [reflexivity|].
  apply (no_handler_after_handled Example.get_object 19 5 Example.answer
           (Some Example.app) Example.id_block [] []
           _ [{| c_self := "b"; c_handler := "A.h1"; c_result := RFalse |}] []
           {| c_self := "b"; c_handler := "B.h2"; c_result := RNone |}
           (or_introl eq_refl)).
  - reflexivity.
  - discriminate.
Defined.

(** After a second registration for event 5, class [A] and component 2 the
    registry holds the function alone, and a dispatch that reaches the entry
    ends in a [TypeError]. *)
Lemma bare_entry_raises :
  (EventHandler.toolbox_dispatch
     (EventHandler.init "b" ["B"; "A"; "EventHandler"; "object"]
        (_set_handler (One (CodeInt 5)) (Some 2%Z)
           (Example.returning "A.h1" RNone) Example._toolbox_handlers).1 [] [])
     5 Example.id_block [])
  = ([], Raise (TypeError "cannot unpack non-iterable function object")).
Proof. reflexivity. Qed.

(** ** Order of the handlers of one object *)

Lemma entries_registered (rs : list registration) (nm : string)
    (mro : list string) (R2 R3 : registry) (e c : option Z) :
  entries e c
    (EventHandler.toolbox_handlers
       (EventHandler.init nm mro (registered rs) R2 R3))
  = flat_map (fun k => option_list (lookup3 (registered rs) e (Some k) c)) mro.
Proof.
  pose proof (init_entries nm mro (registered rs) R2 R3 e c) as H.
  cbv zeta in H. destruct H as [-> _].
  induction mro as [|k mro IH]; simpl; [done|].
  by rewrite IH, layer_lookup3 by apply distinct_keys_registered.
Qed.

Lemma elem_of_flat_map_lookup {A} (f : string -> option A) (mro : list string)
    (k : string) (x : A) :
  k ∈ mro -> f k = Some x -> x ∈ flat_map (fun k => option_list (f k)) mro.
Proof.
  intros Hk Hf. apply list_elem_of_In, in_flat_map. exists k.
  split; [by apply list_elem_of_In|]. rewrite Hf. by left.
Qed.

Lemma callable_names (self : EventHandler.t) (e : Z) (idb : IdBlock)
    (pb : list byte) (l : list reg_entry) :
  length (callable self e idb pb l) = length l ->
  map c_handler (callable self e idb pb l) = entry_names l.
Proof.
  induction l as [|[h t|h] l IH]; simpl; [done| |done].
  destruct (EventHandler._data t pb) as [d|err]; simpl; [|done].
  intros [= Hl]. by rewrite IH.
Qed.

(** C1, as the code has it: the calls [_dispatch] makes on one object are
    the calls of the list of the event's component, in the order of the
    list, followed - when that list was walked to its end - by the calls of
    the wildcard list, and they end with the first call that did not return
    [False].  With a component-specific handler registered on [A] and a
    wildcard handler registered on the more derived [B], the handler of [A]
    is in the first list and the handler of [B] in the second.  So a call
    from the wildcard list is only made after every component-specific
    handler, the one of [A] among them, was called and returned [False];
    and when all of them can be called and return [False], all of them are
    called before the first wildcard handler.  The component filter ranks
    first, the class only orders the handlers of one list. *)
Theorem specific_before_wildcard (rs : list registration) (R2 R3 : registry)
    (nm : string) (mro pre mid post : list string) (A B : string) (e : Z)
    (rA rB : registration) (id_block : IdBlock) (poll_block : list byte) :
  mro = pre ++ B :: mid ++ A :: post ->
  last_registration rs (Some e) A (Some (component (ib_self id_block))) rA ->
  last_registration rs (Some e) B None rB ->
  let self := EventHandler.init nm mro (registered rs) R2 R3 in
  let specific :=
    entries (Some e) (Some (component (ib_self id_block)))
      (EventHandler.toolbox_handlers self) in
  let wildcard := entries (Some e) None (EventHandler.toolbox_handlers self) in
  let trace := (EventHandler.toolbox_dispatch self e id_block poll_block).1 in
  let calls1 := callable self e id_block poll_block specific in
  let calls2 := callable self e id_block poll_block wildcard in
  (exists eA, eA ∈ specific /\ entry_handler eA = r_handler rA)
  /\ (exists eB, eB ∈ wildcard /\ entry_handler eB = r_handler rB)
  /\ trace
     = until_handled
         (calls1 ++ (if decide (length calls1 = length specific)
                     then calls2 else []))
  /\ (length calls1 = length specific -> continues calls1 ->
      trace = calls1 ++ until_handled calls2
      /\ map c_handler calls1 = entry_names specific)
  /\ exists tr1 tr2,
       trace = tr1 ++ tr2
       /\ map c_handler tr1 `prefix_of` entry_names specific
       /\ map c_handler tr2 `prefix_of` entry_names wildcard
       /\ (tr2 ≠ [] ->
           continues tr1 /\ map c_handler tr1 = entry_names specific
           /\ exists cA, cA ∈ tr1 /\ c_handler cA = qualname (r_handler rA)
                         /\ c_result cA = RFalse).
Proof.
  intros Hmro HA HB self specific wildcard trace calls1 calls2.
  destruct (last_registration_holds rs _ A _ rA HA) as (eA & HlA & HeA).
  destruct (last_registration_holds rs _ B _ rB HB) as (eB & HlB & HeB).
  assert (HinA : eA ∈ specific).
  { unfold specific, self. rewrite entries_registered.
    apply (elem_of_flat_map_lookup _ _ A); [|done].
    subst mro. rewrite elem_of_app, elem_of_cons, elem_of_app, elem_of_cons.
    tauto. }
  assert (HinB : eB ∈ wildcard).
  { unfold wildcard, self. rewrite entries_registered.
    apply (elem_of_flat_map_lookup _ _ B); [|done].
    subst mro. rewrite elem_of_app, elem_of_cons. tauto. }
  assert (Hexact : trace
                   = until_handled
                       (calls1 ++ (if decide (length calls1 = length specific)
                                   then calls2 else []))).
  { apply (dispatch_exact self (EventHandler.toolbox_handlers self) e
             id_block poll_block). }
  split; [by exists eA|]. split; [by exists eB|]. split; [done|]. split.
  { intros Hl Hc. rewrite Hexact, decide_True by done.
    split; [by apply until_handled_app | by apply callable_names]. }
  destruct (dispatch_trace self (EventHandler.toolbox_handlers self) e
              id_block poll_block) as [(tr1 & tr2 & Htr & Hp1 & Hp2 & Hne) _].
  exists tr1, tr2. split; [done|]. split; [done|]. split; [done|].
  intros Hnil. destruct (Hne Hnil) as [Hc Hn].
  split; [done|]. split; [done|].
  assert (Hq : qualname (r_handler rA) ∈ map c_handler tr1).
  { rewrite Hn, <- HeA. unfold entry_names. apply list_elem_of_In, in_map_iff.
    exists eA. split; [done | by apply list_elem_of_In]. }
  apply list_elem_of_In, in_map_iff in Hq as (cA & Hq & HcA).
  apply list_elem_of_In in HcA.
  exists cA. split; [done|]. split; [done|].
  unfold continues in Hc. rewrite Forall_forall in Hc. by apply Hc.
Qed.

Lemma specific_before_wildcard_witness :
  (EventHandler.toolbox_dispatch Example.b 5 Example.id_block []).1
  = [{| c_self := "b"; c_handler := "A.h1"; c_result := RFalse |};
     {| c_self := "b"; c_handler := "B.h2"; c_result := RNone |}]
  /\ exists tr1 tr2,
       (EventHandler.toolbox_dispatch Example.b 5 Example.id_block []).1
       = tr1 ++ tr2
       /\ tr2 ≠ []
       /\ exists cA, cA ∈ tr1 /\ c_handler cA = "A.h1" /\ c_result cA = RFalse.
Proof.
  assert (HA : last_registration Example.registrations (Some 5%Z) "A"
                 (Some (component (ib_self Example.id_block)))
                 (Example.on 5 (Some 2%Z) Example.h1)).
  { exists [],
           [Example.on 6 (Some 2%Z) Example.A_on6;
            Example.on 5 None Example.h2;
            Example.on 6 (Some 2%Z) Example.B_on6;
            Example.on 5 None Example.h4].
    split; [reflexivity|]. split.
    - split; [|split; reflexivity].
      exists [], (CodeInt 5), []. split; [reflexivity|].
      split; [constructor | reflexivity].
    - repeat constructor.
      + intros (Hin & _ & _). apply list_elem_of_singleton in Hin. discriminate.
      + intros (_ & Hc & _). discriminate.
      + intros (Hin & _ & _). apply list_elem_of_singleton in Hin. discriminate.
      + intros (_ & Hc & _). discriminate. }
  assert (HB : last_registration Example.registrations (Some 5%Z) "B" None
                 (Example.on 5 None Example.h2)).
  { exists [Example.on 5 (Some 2%Z) Example.h1;
            Example.on 6 (Some 2%Z) Example.A_on6],
           [Example.on 6 (Some 2%Z) Example.B_on6;
            Example.on 5 None Example.h4].
    split; [reflexivity|]. split.
    - split; [|split; reflexivity].
      exists [], (CodeInt 5), []. split; [reflexivity|].
      split; [constructor | reflexivity].
    - repeat constructor.
      + intros (_ & Hc & _). discriminate.
      + intros (_ & _ & Hcls). vm_compute in Hcls. discriminate. }
  destruct (specific_before_wildcard Example.registrations [] [] "b"
              ["B"; "A"; "EventHandler"; "object"] [] [] ["EventHandler"; "object"]
              "A" "B" 5 (Example.on 5 (Some 2%Z) Example.h1)
              (Example.on 5 None Example.h2) Example.id_block []
              eq_refl HA HB)
    as (_ & _ & Hexact & _ & tr1 & tr2 & Htr & Hp1 & Hp2 & Hlast).
  split; [exact Hexact|].
  exists tr1, tr2. split; [exact Htr|].
  assert (Hne : tr2 ≠ []).
  { intros ->. rewrite app_nil_r in Htr. subst tr1.
    destruct Hp1 as [k Hk]. vm_compute in Hk. discriminate. }
  split; [exact Hne|]. exact (proj2 (proj2 (Hlast Hne))).
Defined.

(** C1 as the spec states it fails: [A.h1] is registered for event 5 and
    component 2, [B.h2] for event 5 and any component, [B] derives from [A];
    for event 5 from component 2 the instance of [B] calls [A.h1] first and
    [B.h2] after it. *)
Lemma wildcard_of_subclass_not_first :
  map c_handler (EventHandler.toolbox_dispatch Example.b 5 Example.id_block []).1
  = ["A.h1"; "B.h2"]
  /\ ~ invoked_before "B.h2" "A.h1"
         (EventHandler.toolbox_dispatch Example.b 5 Example.id_block []).1.
Proof.
  split; [reflexivity|].
  intros (pre & post & Heq & Hnot).
  change (["A.h1"; "B.h2"] = pre ++ "B.h2" :: post) in Heq.
  destruct pre as [|x pre]; [discriminate|].
  injection Heq as <- _. apply Hnot, elem_of_cons. by left.
Qed.

(** C9, as the code has it: classes are told apart by their [__qualname__]
    alone.  When [A] and [B] are different names, [B] comes before [A] in
    the class chain of an object, and each of the two classes has
    registered a function for the same event and the same component filter
    - the function of its last such registration counts - then the two
    functions are different, and the list the object holds for that event
    and filter contains both, the one of [B] before the one of [A].  This
    holds for each of the three tables; the tables are a function of the
    class chain and of the registries alone. *)
Theorem derived_class_handler_first (rs1 rs2 rs3 : list registration)
    (nm : string) (mro pre mid post : list string) (A B : string)
    (e c : option Z) (rA rB : registration) (rs : list registration)
    (tbl : table) :
  (rs, tbl) ∈
    (let self := EventHandler.init nm mro (registered rs1) (registered rs2)
                   (registered rs3) in
     [(rs1, EventHandler.toolbox_handlers self);
      (rs2, EventHandler.wimp_handlers self);
      (rs3, EventHandler.message_handlers self)]) ->
  mro = pre ++ B :: mid ++ A :: post ->
  A ≠ B ->
  last_registration rs e B c rB ->
  last_registration rs e A c rA ->
  r_handler rB ≠ r_handler rA
  /\ (exists l1 eB l2 eA l3,
        entries e c tbl = l1 ++ eB :: l2 ++ eA :: l3
        /\ entry_handler eB = r_handler rB
        /\ entry_handler eA = r_handler rA)
  /\ forall nm',
       let other := EventHandler.init nm' mro (registered rs1) (registered rs2)
                      (registered rs3) in
       tbl ∈ [EventHandler.toolbox_handlers other;
              EventHandler.wimp_handlers other;
              EventHandler.message_handlers other].
Proof.
  intros Hin Hmro Hne HB HA. cbv zeta in Hin.
  pose proof (init_entries nm mro (registered rs1) (registered rs2)
                (registered rs3) e c) as He.
  pose proof (init_tables nm mro (registered rs1) (registered rs2)
                (registered rs3)) as Ht.
  cbv zeta in He, Ht. destruct He as (He1 & He2 & He3).
  destruct Ht as (_ & Ht1 & Ht2 & Ht3).
  assert (Hl : entries e c tbl
               = flat_map (fun k => layer (registered rs) k e c) mro).
  { rewrite !elem_of_cons, elem_of_nil in Hin.
    destruct Hin as [E|[E|[E|[]]]]; by injection E as -> ->. }
  split; [|split].
  - intros E. apply Hne.
    destruct HB as (_ & _ & _ & (_ & _ & HclsB) & _).
    destruct HA as (_ & _ & _ & (_ & _ & HclsA) & _).
    rewrite E in HclsB. congruence.
  - destruct (last_registration_holds rs e B c rB HB) as (eB & HlB & HeB).
    destruct (last_registration_holds rs e A c rA HA) as (eA & HlA & HeA).
    rewrite Hl. subst mro.
    rewrite flat_map_app. simpl. rewrite flat_map_app. simpl.
    rewrite !layer_lookup3, HlA, HlB by apply distinct_keys_registered. simpl.
    eexists _, eB, _, eA, _. split; [reflexivity|]. by split.
  - intros nm'. cbv zeta.
    pose proof (init_tables nm' mro (registered rs1) (registered rs2)
                  (registered rs3)) as Ht'.
    cbv zeta in Ht'. destruct Ht' as (_ & -> & -> & ->).
    rewrite <- Ht1, <- Ht2, <- Ht3.
    rewrite !elem_of_cons, elem_of_nil in Hin. rewrite !elem_of_cons.
    destruct Hin as [E|[E|[E|[]]]]; injection E as _ ->; tauto.
Qed.

Lemma derived_class_handler_first_witness :
  exists l1 eB l2 eA l3,
    entries (Some 6%Z) (Some 2%Z) (EventHandler.toolbox_handlers Example.b)
    = l1 ++ eB :: l2 ++ eA :: l3
    /\ entry_handler eB = Example.B_on6
    /\ entry_handler eA = Example.A_on6.
Proof.
  assert (Hin : (Example.registrations, EventHandler.toolbox_handlers Example.b)
                ∈ (let self := EventHandler.init "b"
                                 ["B"; "A"; "EventHandler"; "object"]
                                 (registered Example.registrations)
                                 (registered []) (registered []) in
                   [(Example.registrations, EventHandler.toolbox_handlers self);
                    ([], EventHandler.wimp_handlers self);
                    ([], EventHandler.message_handlers self)])).
  { apply elem_of_cons. by left. }
  assert (Hne : "A" ≠ "B") by discriminate.
  assert (HB : last_registration Example.registrations (Some 6%Z) "B" (Some 2%Z)
                 (Example.on 6 (Some 2%Z) Example.B_on6)).
  { exists [Example.on 5 (Some 2%Z) Example.h1;
            Example.on 6 (Some 2%Z) Example.A_on6;
            Example.on 5 None Example.h2],
           [Example.on 5 None Example.h4].
    split; [reflexivity|]. split.
    - split; [|split; reflexivity].
      exists [], (CodeInt 6), []. split; [reflexivity|].
      split; [constructor | reflexivity].
    - repeat constructor. intros (_ & Hc & _). discriminate. }
  assert (HA : last_registration Example.registrations (Some 6%Z) "A" (Some 2%Z)
                 (Example.on 6 (Some 2%Z) Example.A_on6)).
  { exists [Example.on 5 (Some 2%Z) Example.h1],
           [Example.on 5 None Example.h2;
            Example.on 6 (Some 2%Z) Example.B_on6;
            Example.on 5 None Example.h4].
    split; [reflexivity|]. split.
    - split; [|split; reflexivity].
      exists [], (CodeInt 6), []. split; [reflexivity|].
      split; [constructor | reflexivity].
    - repeat constructor.
      + intros (_ & Hc & _). discriminate.
      + intros (_ & _ & Hcls). vm_compute in Hcls. discriminate.
      + intros (_ & Hc & _). discriminate. }
  exact (proj1 (proj2 (derived_class_handler_first Example.registrations [] []
           "b" ["B"; "A"; "EventHandler"; "object"] [] [] ["EventHandler"; "object"]
           "A" "B" (Some 6%Z) (Some 2%Z)
           (Example.on 6 (Some 2%Z) Example.A_on6)
           (Example.on 6 (Some 2%Z) Example.B_on6)
           Example.registrations (EventHandler.toolbox_handlers Example.b)
           Hin eq_refl Hne HB HA))).
Defined.

(** C9 as the spec states it fails: a class [Window] registers [on5] for
    event 5, and a class derived from it, defined in another module under
    the same name [Window], registers its own [on5] for event 5.  The
    second registration finds a dictionary for its class name and overwrites
    the entry of the base class, and the instance of the derived class holds
    the function of the derived class twice and the function of the base
    class not at all. *)
Lemma same_name_hides_base_handler :
  entries (Some 5%Z) None (EventHandler.toolbox_handlers Example3.window)
  = [Bare Example3.derived_on5; Bare Example3.derived_on5]
  /\ ~ (exists l1 eB l2 eA l3,
          entries (Some 5%Z) None (EventHandler.toolbox_handlers Example3.window)
          = l1 ++ eB :: l2 ++ eA :: l3
          /\ entry_handler eB = Example3.derived_on5
          /\ entry_handler eA = Example3.base_on5).
Proof.
  assert (E : entries (Some 5%Z) None
                (EventHandler.toolbox_handlers Example3.window)
              = [Bare Example3.derived_on5; Bare Example3.derived_on5])
    by reflexivity.
  split; [exact E|].
  intros (l1 & eB & l2 & eA & l3 & Heq & _ & HA).
  assert (Hin : eA ∈ [Bare Example3.derived_on5; Bare Example3.derived_on5]).
  { rewrite <- E, Heq. rewrite elem_of_app, elem_of_cons, elem_of_app,
      elem_of_cons. tauto. }
  assert (Hd : entry_handler eA = Example3.derived_on5).
  { repeat (apply elem_of_cons in Hin as [->|Hin]; [done|]).
    by apply elem_of_nil in Hin. }
  rewrite Hd in HA.
  assert (Hr : run Example3.derived_on5 "window" 5 Example.id_block (Raw [])
               = run Example3.base_on5 "window" 5 Example.id_block (Raw []))
    by (by rewrite HA).
  discriminate Hr.
Qed.

(** ** One entry per event, class and component *)











(** ** The candidate objects *)

(** C2 at the ids 3, 1, 2 for self, parent and ancestor: the set walks its
    slots in the order 1, 2, 3, so the parent and the ancestor are tried
    before the object the event came from, where the comment above
    [_get_spaa] promises self, parent, ancestor. *)
Theorem get_spaa_order :
  map EventHandler.obj_name
    (_get_spaa Example.get_object (Some Example.app) Example.id_block)
  = ["parent"; "ancestor"; "b"; "app"]
  /\ map EventHandler.obj_name
       (spaa_in_order Example.get_object (Some Example.app) Example.id_block)
     = ["b"; "parent"; "ancestor"; "app"].
Proof. split; reflexivity. Qed.

(** The application object, when there is one, is the last candidate. *)
Lemma get_spaa_application_last (get_object : Z -> option EventHandler.t)
    (a : EventHandler.t) (id_block : IdBlock) :
  _get_spaa get_object (Some a) id_block
  = _get_spaa get_object None id_block ++ [a].
Proof. unfold _get_spaa. by rewrite app_nil_r. Qed.

(** When they are already in slot order, the ids keep their order. *)
Lemma get_spaa_in_slot_order (get_object : Z -> option EventHandler.t)
    (application : option EventHandler.t) :
  _get_spaa get_object application
    {| ib_self := {| obj_id := 1; component := 0 |};
       ib_parent := {| obj_id := 2; component := 0 |};
       ib_ancestor := {| obj_id := 3; component := 0 |} |}
  = spaa_in_order get_object application
      {| ib_self := {| obj_id := 1; component := 0 |};
         ib_parent := {| obj_id := 2; component := 0 |};
         ib_ancestor := {| obj_id := 3; component := 0 |} |}.
Proof. reflexivity. Qed.

(** ** Sending *)

Section SendingFacts.
Context {W : Type}.
Variable Wimp_SendMessage :
  W -> Z -> UserMessage.t -> Z -> Z -> W * UserMessage.t * Z.
Variables Wimp_UserMessage Wimp_UserMessageRecorded : Z.

(** C5 on the code: [send] calls [_send] with four arguments where five
    are required, so every call of [send] ends in a [TypeError] before the
    message reaches the Wimp; no reference is assigned and no callback is
    stored. *)
Theorem send_raises_TypeError (self : UserMessage.t)
    (task window iconbar : option Z) (recorded : bool) (size : option Z)
    (reply_callback : option callback) (w : W) (cbs : reply_table) :
  send Wimp_SendMessage Wimp_UserMessage Wimp_UserMessageRecorded
    self task window iconbar recorded size reply_callback w cbs
  = (UserMessage.with_your_ref self 0, w, cbs,
     Raise (TypeError
              "_send() missing 1 required positional argument: 'reply_callback'")).
Proof.
  unfold send.
  repeat match goal with |- context [decide ?P] => destruct (decide P) end;
    reflexivity.
Qed.

(** [broadcast], which passes all five arguments, does what [send] was
    meant to do: the message goes to the Wimp and the callback is stored
    under the reference the Wimp wrote into the block. *)
Lemma broadcast_stores_callback (self : UserMessage.t) (recorded : bool)
    (size : option Z) (cb : callback) (w : W) (cbs : reply_table) (ev : Z) :
  event_id (UserMessage.cls self) = Some ev ->
  exists reason sent,
    UserMessage.your_ref sent = 0%Z
    /\ UserMessage.code sent = (ev mod 2 ^ 32)%Z
    /\ broadcast Wimp_SendMessage Wimp_UserMessage Wimp_UserMessageRecorded
         self recorded size (Some cb) w cbs
       = let '(w', msg, _) := Wimp_SendMessage w reason sent 0%Z 0%Z in
         (msg, w', Dict.set (UserMessage.my_ref msg) cb cbs, Ok ()).
Proof.
  intros Hev. unfold broadcast, call__send, _send. simpl. rewrite Hev.
  eexists _, _. split; [|split]; [| |].
  3:{ match goal with
      | |- context [Wimp_SendMessage w ?r ?m 0%Z 0%Z] =>
          destruct (Wimp_SendMessage w r m 0%Z 0%Z) as [[w' m'] hd] eqn:E
      end.
      simpl. rewrite E. reflexivity. }
  all: reflexivity.
Qed.
End SendingFacts.

(** ** Reply callbacks *)

Lemma NoDup_keys_del {K V : Type} `{EqDecision K} (k : K) (d d' : list (K * V)) :
  NoDup (Dict.keys d) -> Dict.del k d = Ok d' -> NoDup (Dict.keys d').
Proof.
  unfold Dict.keys. revert d'.
  induction d as [|[k' v'] d IH]; simpl; intros d' Hnd; [done|].
  apply NoDup_cons in Hnd as [Hnotin Hnd].
  destruct (decide (k' = k)) as [->|Hne]; [by intros [= <-]|].
  destruct (Dict.del k d) as [d''|] eqn:E; simpl; [|done].
  intros [= <-]. simpl. apply NoDup_cons. split; [|by apply IH].
  intros Hin. apply Hnotin.
  apply list_elem_of_fmap in Hin as ([k0 v0] & -> & Hin).
  apply list_elem_of_fmap. exists (k0, v0). split; [done|].
  clear -Hin E. revert d'' E Hin.
  induction d as [|[k1 v1] d IH]; simpl; intros d''; [done|].
  destruct (decide (k1 = k)) as [->|Hne].
  - intros [= <-] Hin. apply elem_of_cons. by right.
  - destruct (Dict.del k d) as [d1|] eqn:E1; simpl; [|done].
    intros [= <-] Hin. apply elem_of_cons in Hin as [->|Hin].
    + apply elem_of_cons. by left.
    + apply elem_of_cons. right. by apply (IH d1).
Qed.

Lemma store_all_get (stores : list (Z * callback)) (cbs : reply_table) (r : Z) :
  is_Some (Dict.get r cbs) -> is_Some (Dict.get r (store_all stores cbs)).
Proof.
  unfold store_all. revert cbs.
  induction stores as [|[k c] stores IH]; intros cbs Hr; simpl; [done|].
  apply IH. destruct (decide (k = r)) as [->|Hne].
  - rewrite get_set_eq. by eexists.
  - by rewrite get_set_ne.
Qed.

Lemma store_all_NoDup (stores : list (Z * callback)) (cbs : reply_table) :
  NoDup (Dict.keys cbs) -> NoDup (Dict.keys (store_all stores cbs)).
Proof.
  unfold store_all. revert cbs.
  induction stores as [|[k c] stores IH]; intros cbs Hnd; simpl; [done|].
  apply IH. by apply NoDup_keys_set.
Qed.

(** Calling the callback stored under a reference is one call of that
    callback, whatever comes of it. *)
Lemma fire_called (r : Z) (payload : option (list byte)) (cbs : reply_table)
    (cb : callback) :
  Dict.get r cbs = Some cb ->
  (fire r payload cbs).1.1 = [fired_with payload (r, cb)].
Proof.
  intros Hget. unfold fire. rewrite Hget.
  destruct (cb_run cb payload) as [[v|e] stores]; [|done].
  by destruct (Dict.del r _).
Qed.

(** When the callback returns, its entry is deleted: the reference is gone
    whatever the callback stored. *)
Lemma fire_returns (r : Z) (payload : option (list byte)) (cbs : reply_table)
    (cb : callback) (v : pyresult) :
  NoDup (Dict.keys cbs) -> Dict.get r cbs = Some cb ->
  (cb_run cb payload).1 = Ok v ->
  exists cbs1,
    fire r payload cbs = ([fired_with payload (r, cb)], cbs1, Ok v)
    /\ Dict.get r cbs1 = None /\ NoDup (Dict.keys cbs1).
Proof.
  intros Hnd Hget Hv. unfold fire. rewrite Hget.
  destruct (cb_run cb payload) as [res stores] eqn:Erun.
  simpl in Hv. subst res.
  fold (store_all stores cbs).
  destruct (store_all_get stores cbs r) as [x Hx]; [by eexists|].
  destruct (del_Some _ _ _ Hx) as [cbs1 Hdel]. rewrite Hdel.
  pose proof (store_all_NoDup stores cbs Hnd) as Hnd'.
  exists cbs1. split; [done|]. split.
  - by apply (get_del_eq r (store_all stores cbs)).
  - by apply (NoDup_keys_del r (store_all stores cbs)).
Qed.

(** When the callback raises, the [del] is not reached: the table keeps the
    entry, and what the callback stored before it raised. *)
Lemma fire_raises (r : Z) (payload : option (list byte)) (cbs : reply_table)
    (cb : callback) (e : exn) :
  Dict.get r cbs = Some cb ->
  (cb_run cb payload).1 = Raise e ->
  fire r payload cbs
  = ([fired_with payload (r, cb)], store_all (cb_run cb payload).2 cbs, Raise e).
Proof.
  intros Hget He. unfold fire. rewrite Hget.
  destruct (cb_run cb payload) as [res stores]. simpl in *. by subst res.
Qed.

Lemma fire_refs (ref : Z) (payload : option (list byte)) (cbs : reply_table) :
  Forall (fun g => f_ref g = ref) (fire ref payload cbs).1.1.
Proof.
  unfold fire. destruct (Dict.get ref cbs) as [cb|]; [|constructor].
  destruct (cb_run cb payload) as [[v|e] stores].
  - destruct (Dict.del ref _); simpl; by repeat constructor.
  - by repeat constructor.
Qed.

Section ReplyFacts.
Variable get_object : Z -> option EventHandler.t.
Variable ack : Z.

(** The second [if] of [message_dispatch] on a table without reference
    [r]: no callback is called for [r], and unless the message is a bounce
    whose own reference is pending, the handlers are reached. *)
Lemma bounce_without (m : MessageInfo) (application : option EventHandler.t)
    (idb : IdBlock) (pb : list byte) (fs : list fired) (t : reply_table)
    (r : Z) :
  Dict.get r t = None ->
  let out := message_bounce get_object ack m application idb pb fs t in
  (exists extra, mo_fired out = fs ++ extra
                 /\ Forall (fun g => f_ref g ≠ r) extra)
  /\ (mi_reason m ≠ ack \/ Dict.mem (mi_my_ref m) t = false ->
      mo_dispatched out = true /\ mo_fired out = fs /\ mo_callbacks out = t).
Proof.
  intros Hr. unfold message_bounce.
  destruct (bool_decide (mi_reason m = ack) && Dict.mem (mi_my_ref m) t) eqn:Ec.
  - apply andb_true_iff in Ec as [Hack Hmem].
    apply bool_decide_eq_true in Hack.
    assert (Hne : mi_my_ref m ≠ r).
    { intros E. rewrite E in Hmem. unfold Dict.mem in Hmem. by rewrite Hr in Hmem. }
    pose proof (fire_refs (mi_my_ref m) (Some pb) t) as Hf.
    destruct (fire (mi_my_ref m) (Some pb) t) as [[fs' t'] res]. simpl in Hf.
    assert (Hf' : Forall (fun g => f_ref g ≠ r) fs').
    { eapply Forall_impl; [exact Hf|]. simpl. intros g ->. done. }
    split.
    + exists fs'. split; [|done].
      unfold message_handlers_loop.
      destruct res as [res|err]; [destruct (is_not_False res)|]; try done.
      by destruct (dispatch_loop _ _).
    + intros [Hn|Hn]; [done | congruence].
  - unfold message_handlers_loop.
    destruct (dispatch_loop _ _) as [tr res]. simpl. split.
    + exists []. by rewrite app_nil_r.
    + done.
Qed.

(** The second [if] of [message_dispatch] for a bounce whose own
    reference is pending: the callback of that reference is called, and
    the handlers are reached exactly when it returned [False]. *)
Lemma bounce_pending (m : MessageInfo) (application : option EventHandler.t)
    (idb : IdBlock) (pb : list byte) (fs : list fired) (t : reply_table)
    (cb : callback) :
  NoDup (Dict.keys t) ->
  mi_reason m = ack ->
  Dict.get (mi_my_ref m) t = Some cb ->
  let out := message_bounce get_object ack m application idb pb fs t in
  mo_fired out = fs ++ [fired_with (Some pb) (mi_my_ref m, cb)]
  /\ (forall v, (cb_run cb (Some pb)).1 = Ok v ->
        Dict.get (mi_my_ref m) (mo_callbacks out) = None
        /\ mo_dispatched out = negb (is_not_False v)
        /\ (mo_dispatched out = false ->
            mo_calls out = [] /\ mo_result out = Ok ()))
  /\ (forall e, (cb_run cb (Some pb)).1 = Raise e ->
        out = stopped (fs ++ [fired_with (Some pb) (mi_my_ref m, cb)])
                (store_all (cb_run cb (Some pb)).2 t) (Raise e)
        /\ is_Some (Dict.get (mi_my_ref m) (mo_callbacks out))).
Proof.
  intros Hnd Hack Hget. unfold message_bounce, Dict.mem.
  rewrite Hget, bool_decide_eq_true_2 by done. simpl.
  destruct (cb_run cb (Some pb)).1 as [v|e] eqn:Erun.
  - destruct (fire_returns (mi_my_ref m) (Some pb) t cb v Hnd Hget Erun)
      as (t1 & -> & Hgone & _).
    unfold message_handlers_loop.
    split; [|split].
    + destruct (is_not_False v); [done|]. by destruct (dispatch_loop _ _).
    + intros v' [= <-].
      destruct (is_not_False v); [done|]. by destruct (dispatch_loop _ _).
    + intros e [=].
  - rewrite (fire_raises (mi_my_ref m) (Some pb) t cb e Hget Erun).
    split; [done|]. split; [intros v [=]|].
    intros e' [= <-]. split; [done|]. simpl.
    apply store_all_get. by eexists.
Qed.

End ReplyFacts.

(** C3 on the code: reference 7 is pending with a callback that returns
    [False], reference 9 is pending too, and the message that arrives is the
    bounce of message 9 with [your_ref] 7.  The callback of 7 is called and
    returns [False], so the message should be offered to the handlers, as
    the comment at the head of the module says.  It is not: the second
    [if] of [message_dispatch] calls the callback of 9, which returns
    nothing, and [message_dispatch] returns before its loop over the
    candidates. *)
Theorem continue_may_not_reach_handlers :
  (cb_run Example.on_reply (Some [])).1 = Ok RFalse
  /\ message_dispatch Example.get_object Example.UserMessageAcknowledge
       Example.bounced (Some Example.app) Example.id_block [] Example.pending
     = {| mo_callbacks := [];
          mo_fired := [{| f_ref := 7; f_name := "on_reply"; f_payload := Some [] |};
                       {| f_ref := 9; f_name := "on_bounce"; f_payload := Some [] |}];
          mo_dispatched := false;
          mo_calls := [];
          mo_result := Ok () |}
  /\ ~ ((cb_run Example.on_reply (Some [])).1 = Ok RFalse ->
        mo_dispatched
          (message_dispatch Example.get_object Example.UserMessageAcknowledge
             Example.bounced (Some Example.app) Example.id_block []
             Example.pending)
        = true).
Proof.
  split; [reflexivity|]. split; [reflexivity|].
  intros H. specialize (H eq_refl). vm_compute in H. discriminate.
Qed.

(** ** Draining on idle *)

Lemma set_app_fresh {K V : Type} `{EqDecision K} (k : K) (v : V)
    (d1 d2 : list (K * V)) :
  k ∉ Dict.keys d1 -> Dict.set k v (d1 ++ d2) = d1 ++ Dict.set k v d2.
Proof.
  unfold Dict.keys. induction d1 as [|[k' v'] d1 IH]; simpl; intros Hk; [done|].
  apply not_elem_of_cons in Hk as [Hne Hk].
  rewrite decide_False by done. by rewrite IH.
Qed.

Lemma store_all_app_fresh (stores : list (Z * callback)) (d1 d2 : reply_table) :
  (forall k c, (k, c) ∈ stores -> k ∉ Dict.keys d1) ->
  store_all stores (d1 ++ d2) = d1 ++ store_all stores d2.
Proof.
  unfold store_all. revert d2.
  induction stores as [|[k c] stores IH]; intros d2 Hfresh; simpl; [done|].
  rewrite set_app_fresh by (apply (Hfresh k c), elem_of_cons; by left).
  apply IH. intros k' c' Hin. apply (Hfresh k' c'), elem_of_cons. by right.
Qed.


(** The stores made by the callbacks of a table when each is called with
    [None], in the order of the table. *)
Lemma drain_entries (rest extra : reply_table) :
  (forall entry k c,
     entry ∈ rest -> (k, c) ∈ (cb_run entry.2 None).2 -> k ∉ Dict.keys rest) ->
  (forall entry, entry ∈ rest -> returns None entry.2) ->
  drain (Dict.keys rest) (rest ++ extra)
  = (map (fired_with None) rest,
     store_all (flat_map (fun entry => (cb_run entry.2 None).2) rest) extra,
     Ok ()).
Proof.
  revert extra.
  induction rest as [|[r cb] rest IH]; intros extra Hfresh Hret; [done|].
  simpl. unfold fire. simpl. rewrite decide_True by done.
  destruct (Hret (r, cb)) as [v Hv]; [apply elem_of_cons; by left|].
  simpl in Hv.
  destruct (cb_run cb None) as [res stores] eqn:Erun. simpl in Hv. subst res.
  fold (store_all stores ((r, cb) :: rest ++ extra)).
  assert (Hst : forall k c, (k, c) ∈ stores -> k ∉ Dict.keys ((r, cb) :: rest)).
  { intros k c Hin. apply (Hfresh (r, cb) k c); [apply elem_of_cons; by left|].
    simpl. by rewrite Erun. }
  change ((r, cb) :: rest ++ extra) with (((r, cb) :: rest) ++ extra).
  rewrite (store_all_app_fresh stores ((r, cb) :: rest) extra Hst).
  simpl. rewrite decide_True by done.
  rewrite IH.
  - unfold store_all. by rewrite fold_left_app.
  - intros entry k c Hin Hs Hk.
    apply (Hfresh entry k c); [apply elem_of_cons; by right | done |].
    simpl. apply elem_of_cons. by right.
  - intros entry Hin. apply Hret, elem_of_cons. by right.
Qed.

(** The loop of [null_poll] up to the first callback that raises: the
    entries before it are called and deleted, the entry of the callback
    that raised and the entries after it stay. *)
Lemma drain_raises (before later extra : reply_table) (r : Z) (cb : callback)
    (e : exn) :
  (forall entry k c,
     entry ∈ before ++ (r, cb) :: later ->
     (k, c) ∈ (cb_run entry.2 None).2 ->
     k ∉ Dict.keys (before ++ (r, cb) :: later)) ->
  (forall entry, entry ∈ before -> returns None entry.2) ->
  (cb_run cb None).1 = Raise e ->
  drain (Dict.keys (before ++ (r, cb) :: later))
    ((before ++ (r, cb) :: later) ++ extra)
  = (map (fired_with None) (before ++ [(r, cb)]),
     ((r, cb) :: later)
     ++ store_all
          (flat_map (fun entry => (cb_run entry.2 None).2) (before ++ [(r, cb)]))
          extra,
     Raise e).
Proof.
  revert extra.
  induction before as [|[r0 cb0] before IH]; intros extra Hfresh Hret He.
  - simpl. unfold fire. simpl. rewrite decide_True by done.
    destruct (cb_run cb None) as [res stores] eqn:Erun. simpl in He. subst res.
    fold (store_all stores ((r, cb) :: later ++ extra)).
    change ((r, cb) :: later ++ extra) with (((r, cb) :: later) ++ extra).
    rewrite store_all_app_fresh, app_nil_r; [done|].
    intros k c Hin. apply (Hfresh (r, cb) k c); [apply elem_of_cons; by left|].
    simpl. by rewrite Erun.
  - simpl. unfold fire. simpl. rewrite decide_True by done.
    destruct (Hret (r0, cb0)) as [v Hv]; [apply elem_of_cons; by left|].
    simpl in Hv.
    destruct (cb_run cb0 None) as [res stores] eqn:Erun. simpl in Hv. subst res.
    fold (store_all stores
            ((r0, cb0) :: (before ++ (r, cb) :: later) ++ extra)).
    change ((r0, cb0) :: (before ++ (r, cb) :: later) ++ extra)
      with (((r0, cb0) :: before ++ (r, cb) :: later) ++ extra).
    rewrite store_all_app_fresh.
    2:{ intros k c Hin.
        apply (Hfresh (r0, cb0) k c); [apply elem_of_cons; by left|].
        simpl. by rewrite Erun. }
    simpl. rewrite decide_True by done.
    rewrite IH.
    + unfold store_all. by rewrite fold_left_app.
    + intros entry k c Hin Hs Hk.
      apply (Hfresh entry k c); [apply elem_of_cons; by right | done |].
      simpl. apply elem_of_cons. by right.
    + intros entry Hin. apply Hret, elem_of_cons. by right.
    + done.
Qed.




(** ** Registrations of other classes *)

Lemma build_handlers_set (reg : registry) (tbl : table) (k : string)
    (e : option Z) (hm' : list (option string * list (option Z * reg_entry))) :
  Dict.get (Some k) hm'
  = match Dict.get e reg with
    | Some hm => Dict.get (Some k) hm
    | None => None
    end ->
  EventHandler._build_handlers (Dict.set e hm' reg) tbl k
  = EventHandler._build_handlers reg tbl k.
Proof.
  unfold EventHandler._build_handlers. revert tbl.
  induction reg as [|[e0 hm0] reg IH]; intros tbl Hget; simpl in *.
  - by rewrite Hget.
  - destruct (decide (e0 = e)) as [->|Hne]; simpl.
    + by rewrite Hget.
    + by rewrite IH.
Qed.

Lemma build_handlers_add_handler (reg reg' : registry) (ca : code_arg)
    (c : option Z) (cls : option string) (h : handler) (tbl : table)
    (k : string) :
  cls ≠ Some k ->
  _add_handler reg ca c cls h = Ok reg' ->
  EventHandler._build_handlers reg' tbl k
  = EventHandler._build_handlers reg tbl k.
Proof.
  intros Hcls.
  destruct (code_key ca) as [e|] eqn:Hkey.
  2:{ destruct (add_handler_invalid reg ca c cls h Hkey) as [msg ->]. done. }
  rewrite (add_handler_valid _ _ e) by done. intros [= <-].
  destruct (Dict.get e reg) as [by_cls|] eqn:Ee.
  - destruct (Dict.get cls by_cls) as [by_comp|] eqn:Ec;
      apply build_handlers_set; by rewrite Ee, get_set_ne.
  - apply build_handlers_set. rewrite Ee. simpl. by rewrite decide_False.
Qed.

Lemma build_handlers_set_handler (reg : registry) (code : codes) (c : option Z)
    (h : handler) (tbl : table) (k : string) :
  rsplit_dot (qualname h) ≠ Some k ->
  EventHandler._build_handlers (_set_handler code c h reg).1 tbl k
  = EventHandler._build_handlers reg tbl k.
Proof.
  intros Hcls. unfold _set_handler. destruct code as [ca|cs].
  - destruct (_add_handler reg ca c _ h) as [reg'|] eqn:E; [|done].
    by apply (build_handlers_add_handler reg reg' ca c
                (rsplit_dot (qualname h)) h).
  - assert (H : EventHandler._build_handlers
                  (add_each cs c (rsplit_dot (qualname h)) h reg).1 tbl k
                = EventHandler._build_handlers reg tbl k).
    { revert reg. induction cs as [|x cs IH]; intros reg; simpl; [done|].
      destruct (_add_handler reg x c _ h) as [reg'|] eqn:E; [|done].
      rewrite IH.
      by apply (build_handlers_add_handler reg reg' x c
                  (rsplit_dot (qualname h)) h). }
    by destruct (add_each cs c _ h reg).
Qed.

(** X5: a registration made for a function whose [__qualname__], cut at
    its last dot, is not the [__qualname__] of any class of the class chain
    of an object leaves the object as it would have been without the
    registration, in whichever of the three registries it is made: all
    three tables are the same. *)
Theorem other_class_registration_ignored (R1 R2 R3 : registry) (code : codes)
    (c : option Z) (h : handler) (nm : string) (mro : list string) :
  (forall k, k ∈ mro -> rsplit_dot (qualname h) ≠ Some k) ->
  EventHandler.init nm mro (_set_handler code c h R1).1 R2 R3
  = EventHandler.init nm mro R1 R2 R3
  /\ EventHandler.init nm mro R1 (_set_handler code c h R2).1 R3
     = EventHandler.init nm mro R1 R2 R3
  /\ EventHandler.init nm mro R1 R2 (_set_handler code c h R3).1
     = EventHandler.init nm mro R1 R2 R3.
Proof.
  intros Hcls. unfold EventHandler.init.
  generalize {| EventHandler.obj_name := nm;
                EventHandler.toolbox_handlers := [];
                EventHandler.wimp_handlers := [];
                EventHandler.message_handlers := [] |}.
  induction mro as [|k mro IH]; intros s; simpl; [done|].
  rewrite !build_handlers_set_handler
    by (apply Hcls, elem_of_cons; by left).
  apply IH. intros k' Hk'. apply Hcls, elem_of_cons. by right.
Qed.

Lemma other_class_registration_ignored_witness :
  EventHandler.init "b" ["B"; "A"; "EventHandler"; "object"]
    (_set_handler (Several [CodeInt 5; CodeInt 6]) (Some 2%Z)
       (Example.returning "Other.h" RNone) Example._toolbox_handlers).1 [] []
  = Example.b.
Proof.
  apply (other_class_registration_ignored Example._toolbox_handlers [] []
           (Several [CodeInt 5; CodeInt 6]) (Some 2%Z)
           (Example.returning "Other.h" RNone) "b"
           ["B"; "A"; "EventHandler"; "object"]).
  intros k Hk E. vm_compute in E. injection E as <-.
  repeat (apply elem_of_cons in Hk as [Hk|Hk]; [discriminate|]).
  by apply elem_of_nil in Hk.
Defined.

(** ** Entries that cannot be called *)

Lemma try_handlers_bare (self : EventHandler.t) (e : Z) (idb : IdBlock)
    (pb : list byte) (l : list reg_entry) (h : handler) :
  Bare h ∈ l -> (EventHandler.try_handlers self e idb pb l).2 ≠ Ok false.
Proof.
  induction l as [|[h' t|h'] l IH]; simpl.
  - by intros ?%elem_of_nil.
  - rewrite elem_of_cons. intros [?|Hin]; [done|].
    destruct (EventHandler._data t pb) as [d|err]; [|done].
    destruct (is_not_False _); [done|].
    specialize (IH Hin).
    by destruct (EventHandler.try_handlers self e idb pb l).
  - done.
Qed.

Lemma dispatch_bare (self : EventHandler.t) (tbl : table) (e : Z)
    (idb : IdBlock) (pb : list byte) (h : handler) :
  Bare h ∈ entries (Some e) (Some (component (ib_self idb))) tbl
  \/ Bare h ∈ entries (Some e) None tbl ->
  (EventHandler._dispatch self tbl e idb pb).2 = Ok (Some true)
  \/ exists err, (EventHandler._dispatch self tbl e idb pb).2 = Raise err.
Proof.
  unfold entries, EventHandler._dispatch.
  destruct (Dict.get (Some e) tbl) as [hs|];
    [|intros [?%elem_of_nil|?%elem_of_nil]; done].
  intros Hin.
  destruct (Dict.get (Some (component (ib_self idb))) hs) as [l1|] eqn:E1.
  - pose proof (try_handlers_bare self e idb pb l1 h) as H1.
    destruct (EventHandler.try_handlers self e idb pb l1) as [tr1 r1].
    simpl in H1. destruct r1 as [[|]|err]; simpl; [by left| |right; by eexists].
    destruct Hin as [Hin|Hin]; [by destruct (H1 Hin)|].
    destruct (Dict.get None hs) as [l2|]; [|by apply elem_of_nil in Hin].
    pose proof (try_handlers_bare self e idb pb l2 h Hin) as H2.
    destruct (EventHandler.try_handlers self e idb pb l2) as [tr2 r2].
    simpl in *. destruct r2 as [[|]|err]; [by left|done|right; by eexists].
  - destruct Hin as [Hin|Hin]; [by apply elem_of_nil in Hin|].
    destruct (Dict.get None hs) as [l2|]; [|by apply elem_of_nil in Hin].
    pose proof (try_handlers_bare self e idb pb l2 h Hin) as H2.
    destruct (EventHandler.try_handlers self e idb pb l2) as [tr2 r2].
    simpl in *. destruct r2 as [[|]|err]; [by left|done|right; by eexists].
Qed.

Lemma registered_snoc (rs : list registration) (r : registration) :
  registered (rs ++ [r])
  = (_set_handler (r_code r) (r_component r) (r_handler r) (registered rs)).1.
Proof. unfold registered. by rewrite fold_left_app. Qed.

(** X6: when a class already has a handler for an event, a further handler
    of that class for the same event is stored as the function alone,
    without its event type.  An object of the class then cannot let an
    event that selects this entry's list - by its component, or any event
    when the entry is a wildcard - pass as unhandled: either a handler tried
    earlier handles it, or the dispatch ends in an exception. *)
Theorem second_handler_of_class_blocks (rs : list registration)
    (r : registration) (ca : code_arg) (k : string) (e : Z) (R2 R3 : registry)
    (nm : string) (mro : list string) (idb : IdBlock) (pb : list byte) :
  r_code r = One ca ->
  code_key ca = Some (Some e) ->
  rsplit_dot (qualname (r_handler r)) = Some k ->
  is_Some (class_dict (registered rs) (Some e) (Some k)) ->
  k ∈ mro ->
  r_component r = None \/ r_component r = Some (component (ib_self idb)) ->
  lookup3 (registered (rs ++ [r])) (Some e) (Some k) (r_component r)
  = Some (Bare (r_handler r))
  /\ ((EventHandler.toolbox_dispatch
         (EventHandler.init nm mro (registered (rs ++ [r])) R2 R3) e idb pb).2
      = Ok (Some true)
      \/ exists err,
           (EventHandler.toolbox_dispatch
              (EventHandler.init nm mro (registered (rs ++ [r])) R2 R3)
              e idb pb).2
           = Raise err).
Proof.
  intros Hcode Hkey Hcls [x Hx] Hk Hcomp.
  assert (Hl : lookup3 (registered (rs ++ [r])) (Some e) (Some k) (r_component r)
               = Some (Bare (r_handler r))).
  { rewrite registered_snoc, Hcode. unfold _set_handler. rewrite Hcls.
    destruct (_add_handler (registered rs) ca (r_component r) (Some k) (r_handler r))
      as [reg'|] eqn:E.
    - simpl. rewrite (lookup3_add_handler_same _ _ _ _ _ _ _ Hkey E). by rewrite Hx.
    - rewrite (add_handler_valid _ _ (Some e)) in E by done. discriminate. }
  split; [done|].
  apply (dispatch_bare _ _ e idb pb (r_handler r)).
  assert (Hin : Bare (r_handler r)
                ∈ entries (Some e) (r_component r)
                    (EventHandler.toolbox_handlers
                       (EventHandler.init nm mro (registered (rs ++ [r])) R2 R3))).
  { rewrite entries_registered. by apply (elem_of_flat_map_lookup _ _ k). }
  destruct Hcomp as [E|E]; rewrite E in Hin; [by right | by left].
Qed.

Lemma second_handler_of_class_blocks_witness :
  (EventHandler.toolbox_dispatch
     (EventHandler.init "b" ["B"; "A"; "EventHandler"; "object"]
        (registered
           (Example.registrations
            ++ [Example.on 6 None (Example.returning "A.any6" RNone)])) [] [])
     6 Example.id_block []).2
  = Raise (TypeError "cannot unpack non-iterable function object").
Proof.
  destruct (second_handler_of_class_blocks Example.registrations
              (Example.on 6 None (Example.returning "A.any6" RNone))
              (CodeInt 6) "A" 6 [] [] "b" ["B"; "A"; "EventHandler"; "object"]
              Example.id_block [] eq_refl eq_refl eq_refl
              (ex_intro _ _ eq_refl)
              ltac:(apply elem_of_cons; right; apply elem_of_cons; by left)
              (or_introl eq_refl)) as [_ [H|[err H]]].
  - vm_compute in H. discriminate.
  - reflexivity.
Defined.

(** ** Events nobody handles, blocks nobody can decode *)

Lemma dispatch_loop_nothing
    (method : EventHandler.t -> list call * res (option bool))
    (objs : list EventHandler.t) :
  (forall obj, obj ∈ objs -> method obj = ([], Ok (Some false))) ->
  dispatch_loop method objs = ([], Ok ()).
Proof.
  induction objs as [|obj objs IH]; intros H; simpl; [done|].
  rewrite (H obj) by (apply elem_of_cons; by left).
  rewrite IH; [done|]. intros o Ho. apply H, elem_of_cons. by right.
Qed.

(** X7: an event for which none of the candidate objects has a handler is
    no error: no handler is called and [toolbox_dispatch] and
    [wimp_dispatch] return normally. *)
Theorem unknown_event_unhandled (get_object : Z -> option EventHandler.t)
    (e : Z) (application : option EventHandler.t) (idb : IdBlock)
    (pb : list byte) :
  (forall obj, obj ∈ _get_spaa get_object application idb ->
     Dict.get (Some e) (EventHandler.toolbox_handlers obj) = None
     /\ Dict.get (Some e) (EventHandler.wimp_handlers obj) = None) ->
  toolbox_dispatch get_object e application idb pb = ([], Ok ())
  /\ wimp_dispatch get_object e application idb pb = ([], Ok ()).
Proof.
  intros H. unfold toolbox_dispatch, wimp_dispatch. split.
  - apply dispatch_loop_nothing. intros obj Hobj.
    unfold EventHandler.toolbox_dispatch, EventHandler._dispatch.
    by rewrite (proj1 (H obj Hobj)).
  - apply dispatch_loop_nothing. intros obj Hobj.
    unfold EventHandler.wimp_dispatch, EventHandler._dispatch.
    by rewrite (proj2 (H obj Hobj)).
Qed.

Lemma unknown_event_unhandled_witness :
  toolbox_dispatch Example.get_object 77 (Some Example.app) Example.id_block []
  = ([], Ok ()).
Proof.
  apply (unknown_event_unhandled Example.get_object 77 (Some Example.app)
           Example.id_block []).
  intros obj Hobj. vm_compute in Hobj.
  repeat (apply elem_of_cons in Hobj as [->|Hobj]; [by split|]).
  by apply elem_of_nil in Hobj.
Defined.

(** X8: when the first handler an object would try was registered with an
    event class and the poll block cannot be decoded as that class (it is
    too short, or the class is no structure), the exception of the decoder
    ends [toolbox_dispatch]: no handler of this object is called and no
    later candidate is tried. *)
Theorem undecodable_block_aborts (get_object : Z -> option EventHandler.t)
    (e : Z) (application : option EventHandler.t) (idb : IdBlock)
    (pb : list byte) (obj : EventHandler.t) (others : list EventHandler.t)
    (h : handler) (cls : pyclass) (rest : list reg_entry) (err : exn) :
  _get_spaa get_object application idb = obj :: others ->
  entries (Some e) (Some (component (ib_self idb)))
    (EventHandler.toolbox_handlers obj)
  = Pair h (Some cls) :: rest ->
  from_poll_block cls pb = Raise err ->
  toolbox_dispatch get_object e application idb pb = ([], Raise err).
Proof.
  intros Hspaa Hent Herr. unfold toolbox_dispatch. rewrite Hspaa. simpl.
  unfold EventHandler.toolbox_dispatch, EventHandler._dispatch.
  unfold entries in Hent.
  destruct (Dict.get (Some e) (EventHandler.toolbox_handlers obj)) as [hs|];
    [|done].
  destruct (Dict.get (Some (component (ib_self idb))) hs) as [l|]; [|done].
  subst l. simpl. by rewrite Herr.
Qed.

Lemma undecodable_block_aborts_witness :
  toolbox_dispatch Example2.get_object 9 None Example.id_block [x01; x02]
  = ([], Raise (RuntimeError "not enough data for Shown")).
Proof.
  apply (undecodable_block_aborts Example2.get_object 9 None Example.id_block
           [x01; x02] Example2.w [Example2.w; Example2.w] Example2.shown
           Example2.Shown [] _ eq_refl eq_refl eq_refl).
Defined.

(** ** Messages that are not replies, and bounces *)

Section MessageFacts.
Variable get_object : Z -> option EventHandler.t.
Variable ack : Z.


(** X10: a bounce - a message delivered with the acknowledge reason -
    whose [my_ref] is pending, and whose [your_ref] is not, calls the
    callback pending under [my_ref] once with the poll block, and no
    other callback.  When the callback returns, its entry is deleted and
    the handlers are reached exactly when it returned [False].  When it
    raises, the exception leaves [message_dispatch], no handler is called
    and the reference is still pending. *)
Theorem bounce_fires_once (m : MessageInfo)
    (application : option EventHandler.t) (idb : IdBlock) (pb : list byte)
    (cbs : reply_table) (cb : callback) :
  NoDup (Dict.keys cbs) ->
  Dict.get (mi_your_ref m) cbs = None ->
  mi_reason m = ack ->
  Dict.get (mi_my_ref m) cbs = Some cb ->
  let out := message_dispatch get_object ack m application idb pb cbs in
  mo_fired out = [fired_with (Some pb) (mi_my_ref m, cb)]
  /\ (forall v, (cb_run cb (Some pb)).1 = Ok v ->
        Dict.get (mi_my_ref m) (mo_callbacks out) = None
        /\ mo_dispatched out = negb (is_not_False v)
        /\ (mo_dispatched out = false ->
            mo_calls out = [] /\ mo_result out = Ok ()))
  /\ (forall e, (cb_run cb (Some pb)).1 = Raise e ->
        mo_result out = Raise e /\ mo_dispatched out = false
        /\ mo_calls out = []
        /\ is_Some (Dict.get (mi_my_ref m) (mo_callbacks out))).
Proof.
  intros Hnd Hy Hack Hget.
  pose proof (bounce_pending get_object ack m application idb pb [] cbs cb
                Hnd Hack Hget) as Hp.
  cbv zeta in Hp. destruct Hp as (Hf & Hok & Hraise).
  assert (E : message_dispatch get_object ack m application idb pb cbs
              = message_bounce get_object ack m application idb pb [] cbs).
  { unfold message_dispatch, Dict.mem. by rewrite Hy. }
  cbv zeta. rewrite E. split; [exact Hf|]. split; [exact Hok|].
  intros e He. destruct (Hraise e He) as [Eout Hsome].
  split; [by rewrite Eout|]. split; [by rewrite Eout|].
  split; [by rewrite Eout | exact Hsome].
Qed.

(** The callback pending under the [your_ref] of a message is the first
    callback the message calls, and the only one called for that
    reference. *)
Lemma pending_reply_first (m : MessageInfo)
    (application : option EventHandler.t) (idb : IdBlock) (pb : list byte)
    (cbs : reply_table) (cb : callback) :
  NoDup (Dict.keys cbs) ->
  Dict.get (mi_your_ref m) cbs = Some cb ->
  exists rest,
    mo_fired (message_dispatch get_object ack m application idb pb cbs)
    = fired_with (Some pb) (mi_your_ref m, cb) :: rest
    /\ Forall (fun g => f_ref g ≠ mi_your_ref m) rest.
Proof.
  intros Hnd Hget.
  unfold message_dispatch, Dict.mem. rewrite Hget.
  destruct (cb_run cb (Some pb)).1 as [v|e] eqn:Erun.
  - destruct (fire_returns (mi_your_ref m) (Some pb) cbs cb v Hnd Hget Erun)
      as (t1 & -> & Hgone & _).
    destruct (is_not_False v).
    + exists []. split; [done | constructor].
    + destruct (bounce_without get_object ack m application idb pb
                  [fired_with (Some pb) (mi_your_ref m, cb)] t1 _ Hgone)
        as [(extra & Hex & Hfa) _].
      exists extra. by split.
  - rewrite (fire_raises (mi_your_ref m) (Some pb) cbs cb e Hget Erun).
    exists []. split; [done | constructor].
Qed.
End MessageFacts.


Lemma bounce_fires_once_witness :
  mo_fired
    (message_dispatch Example.get_object Example.UserMessageAcknowledge
       Example2.undelivered (Some Example.app) Example.id_block []
       Example.pending)
  = [fired_with (Some []) (9%Z, Example.on_bounce)]
  /\ mo_dispatched
       (message_dispatch Example.get_object Example.UserMessageAcknowledge
          Example2.undelivered (Some Example.app) Example.id_block []
          Example.pending)
     = false.
Proof.
  assert (Hnd : NoDup (Dict.keys Example.pending)).
  { apply (bool_decide_unpack _). vm_compute. exact I. }
  assert (H1 : Dict.get (mi_your_ref Example2.undelivered) Example.pending = None)
    by reflexivity.
  assert (H2 : mi_reason Example2.undelivered = Example.UserMessageAcknowledge)
    by reflexivity.
  assert (H3 : Dict.get (mi_my_ref Example2.undelivered) Example.pending
               = Some Example.on_bounce) by reflexivity.
  pose proof (bounce_fires_once Example.get_object
                Example.UserMessageAcknowledge Example2.undelivered
                (Some Example.app) Example.id_block [] Example.pending
                Example.on_bounce Hnd H1 H2 H3) as H.
  cbv zeta in H. destruct H as (Hf & Hok & _).
  split; [exact Hf|].
  exact (proj1 (proj2 (Hok RNone eq_refl))).
Defined.

(** ** Sending and the reply that follows *)

Section SendReceive.
Context {W : Type}.
Variable Wimp_SendMessage :
  W -> Z -> UserMessage.t -> Z -> Z -> W * UserMessage.t * Z.
Variables Wimp_UserMessage Wimp_UserMessageRecorded : Z.

(** X11: after [broadcast] with a reply callback, the callback is pending
    under the reference the Wimp gave the message, and the first incoming
    message whose [your_ref] is that reference calls it, before any other
    callback and once, with the poll block of that message. *)
Theorem broadcast_then_reply (self : UserMessage.t) (recorded : bool)
    (size : option Z) (cb : callback) (w : W) (cbs : reply_table) (ev : Z)
    (get_object : Z -> option EventHandler.t) (ack : Z) (m : MessageInfo)
    (application : option EventHandler.t) (idb : IdBlock) (pb : list byte) :
  event_id (UserMessage.cls self) = Some ev ->
  NoDup (Dict.keys cbs) ->
  let out := broadcast Wimp_SendMessage Wimp_UserMessage Wimp_UserMessageRecorded
               self recorded size (Some cb) w cbs in
  let sent := out.1.1.1 in
  mi_your_ref m = UserMessage.my_ref sent ->
  out.2 = Ok ()
  /\ Dict.get (UserMessage.my_ref sent) out.1.2 = Some cb
  /\ exists rest,
       mo_fired (message_dispatch get_object ack m application idb pb out.1.2)
       = fired_with (Some pb) (UserMessage.my_ref sent, cb) :: rest
       /\ Forall (fun g => f_ref g ≠ UserMessage.my_ref sent) rest.
Proof.
  intros Hev Hnd out sent Hm.
  destruct (broadcast_stores_callback Wimp_SendMessage Wimp_UserMessage
              Wimp_UserMessageRecorded self recorded size cb w cbs ev Hev)
    as (reason & msg0 & _ & _ & Hb).
  unfold sent, out in *. clear sent out. rewrite Hb in *.
  destruct (Wimp_SendMessage w reason msg0 0%Z 0%Z) as [[w' msg] hd].
  simpl in *. split; [done|]. split; [apply get_set_eq|].
  rewrite <- Hm. apply pending_reply_first.
  - by apply NoDup_keys_set.
  - rewrite Hm. apply get_set_eq.
Qed.

(** X12: [reply] hands the Wimp the reply with [your_ref] set to the
    [my_ref] of the message replied to, addressed to the sender of that
    message, and stores the reply callback, when there is one, under the
    reference the Wimp gives the reply. *)
Theorem reply_correlates (self answer : UserMessage.t) (recorded : bool)
    (size : option Z) (reply_callback : option callback) (w : W)
    (cbs : reply_table) (ev : Z) :
  event_id (UserMessage.cls answer) = Some ev ->
  exists reason sent,
    UserMessage.your_ref sent = UserMessage.my_ref self
    /\ UserMessage.code sent = (ev mod 2 ^ 32)%Z
    /\ reason = (if recorded then Wimp_UserMessageRecorded else Wimp_UserMessage)
    /\ reply Wimp_SendMessage Wimp_UserMessage Wimp_UserMessageRecorded
         self answer recorded size reply_callback w cbs
       = let '(w', msg, _) :=
           Wimp_SendMessage w reason sent
             (or_else (Some (UserMessage.sender self)) 0) 0%Z in
         (msg, w',
          match reply_callback with
          | Some cb => Dict.set (UserMessage.my_ref msg) cb cbs
          | None => cbs
          end, Ok ()).
Proof.
  intros Hev. unfold reply, call__send, _send. simpl. rewrite Hev.
  eexists _, _. split; [|split; [|split]]; [| | |].
  4:{ match goal with
      | |- context [Wimp_SendMessage w ?r ?msg ?t 0%Z] =>
          destruct (Wimp_SendMessage w r msg t 0%Z) as [[w' m'] hd] eqn:E
      end.
      simpl. rewrite E. reflexivity. }
  all: reflexivity.
Qed.

(** X13: a message whose class has no [event_id] cannot be sent:
    [broadcast] and [reply] raise before the Wimp is called, and nothing
    becomes pending. *)
Theorem no_event_id_not_sent (self other : UserMessage.t) (recorded : bool)
    (size : option Z) (reply_callback : option callback) (w : W)
    (cbs : reply_table) :
  event_id (UserMessage.cls self) = None ->
  (exists self' err,
     broadcast Wimp_SendMessage Wimp_UserMessage Wimp_UserMessageRecorded
       self recorded size reply_callback w cbs
     = (self', w, cbs, Raise err))
  /\ (exists self' err,
        reply Wimp_SendMessage Wimp_UserMessage Wimp_UserMessageRecorded
          other self recorded size reply_callback w cbs
        = (self', w, cbs, Raise err)).
Proof.
  intros Hev. unfold broadcast, reply, call__send, _send. simpl.
  rewrite Hev. split; by eexists _, _.
Qed.
End SendReceive.

Lemma broadcast_then_reply_witness :
  exists rest,
    mo_fired
      (message_dispatch Example.get_object Example.UserMessageAcknowledge
         Example2.reply_to_100 None Example.id_block [x01]
         (broadcast Example2.Wimp_SendMessage 17 18 Example2.quit false None
            (Some Example.on_reply) () Example.pending).1.2)
    = fired_with (Some [x01]) (100%Z, Example.on_reply) :: rest.
Proof.
  assert (Hnd : NoDup (Dict.keys Example.pending)).
  { apply (bool_decide_unpack _). vm_compute. exact I. }
  assert (Hev : event_id (UserMessage.cls Example2.quit) = Some 0%Z)
    by reflexivity.
  pose proof (broadcast_then_reply Example2.Wimp_SendMessage 17 18 Example2.quit
                false None Example.on_reply () Example.pending 0
                Example.get_object Example.UserMessageAcknowledge
                Example2.reply_to_100 None Example.id_block [x01] Hev Hnd
                eq_refl) as (_ & _ & rest & Hrest & _).
  exists rest. exact Hrest.
Defined.

Lemma reply_correlates_witness :
  exists reason sent,
    UserMessage.your_ref sent = 41%Z
    /\ reply Example2.Wimp_SendMessage 17 18 Example2.received Example2.quit
         false None (Some Example.on_reply) () []
       = let '(w', msg, _) := Example2.Wimp_SendMessage () reason sent 66 0 in
         (msg, w', [(UserMessage.my_ref msg, Example.on_reply)], Ok ()).
Proof.
  destruct (reply_correlates Example2.Wimp_SendMessage 17 18 Example2.received
              Example2.quit false None (Some Example.on_reply) () [] 0 eq_refl)
    as (reason & sent & H1 & _ & _ & H2).
  exists reason, sent. split; [exact H1 | exact H2].
Defined.

Lemma no_event_id_not_sent_witness :
  exists self' err,
    broadcast Example2.Wimp_SendMessage 17 18 Example2.untyped false None
      (Some Example.on_reply) () Example.pending
    = (self', (), Example.pending, Raise err).
Proof.
  apply (no_event_id_not_sent Example2.Wimp_SendMessage 17 18 Example2.untyped
           Example2.quit false None (Some Example.on_reply) () Example.pending
           eq_refl).
Defined.

(** ** After a drain *)

Lemma store_all_nil (stores : list (Z * callback)) (d : reply_table) :
  store_all stores d = [] <-> stores = [] /\ d = [].
Proof.
  unfold store_all. revert d.
  induction stores as [|[k c] stores IH]; intros d; simpl;
    [split; [done | by intros [_ ->]]|].
  rewrite IH. split; [|by intros [? _]].
  intros [_ E]. by destruct d as [|[k' c'] d]; simpl in E; [|destruct (decide _)].
Qed.

Lemma first_raising (cbs : reply_table) :
  (exists entry, entry ∈ cbs /\ ~ returns None entry.2) ->
  exists before r cb later e,
    cbs = before ++ (r, cb) :: later
    /\ (forall entry, entry ∈ before -> returns None entry.2)
    /\ (cb_run cb None).1 = Raise e.
Proof.
  induction cbs as [|[r cb] cbs IH]; intros (entry & Hin & Hn).
  - by apply elem_of_nil in Hin.
  - destruct (cb_run cb None).1 as [v|e] eqn:Erun.
    + destruct IH as (before & r' & cb' & later & e & -> & Hret & He).
      { exists entry. split; [|done].
        apply elem_of_cons in Hin as [->|Hin]; [|done].
        destruct Hn. by exists v. }
      exists ((r, cb) :: before), r', cb', later, e.
      split; [done|]. split; [|done].
      intros x [->|Hx]%elem_of_cons; [by exists v | by apply Hret].
    + exists [], r, cb, cbs, e. split; [done|]. split; [|done].
      by intros x ?%elem_of_nil.
Qed.

(** X14: after one [null_poll] in which the callbacks store only new
    references: when every callback returned, [null_polls] asks for
    another null event exactly when some callback stored a pending reply
    during the drain, and when none did the table is empty; when a callback
    raised, [null_polls] asks for another null event, the callback that
    raised being still pending. *)
Theorem null_polls_after_drain (cbs : reply_table) :
  (forall entry k c,
     entry ∈ cbs -> (k, c) ∈ (cb_run entry.2 None).2 -> k ∉ Dict.keys cbs) ->
  ((forall entry, entry ∈ cbs -> returns None entry.2) ->
   (null_polls (null_poll cbs).1.2 = true
    <-> exists entry, entry ∈ cbs /\ (cb_run entry.2 None).2 ≠ []))
  /\ ((exists entry, entry ∈ cbs /\ ~ returns None entry.2) ->
      null_polls (null_poll cbs).1.2 = true
      /\ exists e, (null_poll cbs).2 = Raise e).
Proof.
  intros Hfresh. split.
  - intros Hret. unfold null_poll.
    rewrite <- (app_nil_r cbs) at 2. rewrite drain_entries by done. simpl.
    unfold null_polls. rewrite bool_decide_eq_true.
    set (stores := flat_map (fun entry => (cb_run entry.2 None).2) cbs).
    assert (Hs : stores ≠ [] <-> exists entry, entry ∈ cbs
                                  /\ (cb_run entry.2 None).2 ≠ []).
    { unfold stores. clear. induction cbs as [|x l IH]; simpl.
      - split; [done | by intros (? & ?%elem_of_nil & _)].
      - split.
        + intros Hne. destruct ((cb_run x.2 None).2) as [|s ss] eqn:E.
          * simpl in Hne. destruct (proj1 IH Hne) as (entry & ? & ?).
            exists entry. split; [apply elem_of_cons; by right | done].
          * exists x. split; [apply elem_of_cons; by left | by rewrite E].
        + intros (entry & [->|Hin]%elem_of_cons & Hne).
          * by destruct ((cb_run x.2 None).2).
          * intros [_ E]%app_eq_nil. apply IH; [by exists entry | done]. }
    rewrite <- Hs. pose proof (store_all_nil stores []) as Hn.
    destruct (store_all stores []) as [|x l]; simpl.
    + split; [lia|]. intros Hne. destruct Hne. by apply Hn.
    + split; [|lia]. intros _ E. discriminate (proj2 Hn (conj E eq_refl)).
  - intros Hraise.
    destruct (first_raising cbs Hraise)
      as (before & r & cb & later & e & -> & Hret & He).
    assert (E : null_poll (before ++ (r, cb) :: later)
                = (map (fired_with None) (before ++ [(r, cb)]),
                   ((r, cb) :: later)
                   ++ store_all
                        (flat_map (fun entry => (cb_run entry.2 None).2)
                           (before ++ [(r, cb)])) [],
                   Raise e)).
    { unfold null_poll.
      rewrite <- (app_nil_r (before ++ (r, cb) :: later)) at 2.
      by apply drain_raises. }
    rewrite E. simpl. split; [|by exists e].
    unfold null_polls. apply bool_decide_eq_true. simpl. lia.
Qed.

Lemma null_polls_after_drain_witness :
  null_polls (null_poll Example.outstanding).1.2 = true.
Proof.
  assert (Hfresh : forall entry k c,
            entry ∈ Example.outstanding ->
            (k, c) ∈ (cb_run entry.2 None).2 ->
            k ∉ Dict.keys Example.outstanding).
  { intros entry k c Hin Hst Hk.
    apply elem_of_cons in Hin as [->|Hin].
    - apply list_elem_of_singleton in Hst. injection Hst as -> _.
      vm_compute in Hk.
      repeat (apply elem_of_cons in Hk as [Hk|Hk]; [discriminate|]).
      by apply elem_of_nil in Hk.
    - apply list_elem_of_singleton in Hin. subst entry.
      by apply elem_of_nil in Hst. }
  assert (Hret : forall entry,
            entry ∈ Example.outstanding -> returns None entry.2).
  { intros entry Hin.
    apply elem_of_cons in Hin as [->|Hin]; [by exists RNone|].
    apply list_elem_of_singleton in Hin. subst entry. by exists RNone. }
  apply (proj1 (null_polls_after_drain Example.outstanding Hfresh) Hret).
  exists (7%Z, Example.resend). split; [apply elem_of_cons; by left | done].
Defined.

(** ** Conditional fields of a decoded event *)

(** X15: on an [AboutToBeShownEvent] decoded from a poll block, the show
    type is the little-endian word at byte 16 of the block, and each of the
    properties [visible_area], [scroll], [behind], [window_flags] and
    [alignment_flags] is [None] unless the show type is
    [ShowType_FullSpec], in which case it is the value of its field. *)
Theorem conditional_fields_decoded (BBox Point : ctype) (pb : list byte)
    (o : cobj) :
  from_poll_block (AboutToBeShownEvent BBox Point) pb = Ok o ->
  field_of o "show_type" = Ok (VInt (le_uint (take 4 (drop 16 pb))))
  /\ forall prop attr,
       (prop, attr) ∈ [(behind, "_behind"); (window_flags, "_window_flags");
                       (alignment_flags, "_alignment_flags");
                       (scroll, "_scroll"); (visible_area, "_visible_area")] ->
       exists v,
         field_of o attr = Ok v
         /\ prop o
            = Ok (if decide (le_uint (take 4 (drop 16 pb)) = ShowType_FullSpec)
                  then Some v else None).
Proof.
  intros Ho.
  set (n := sizeof (c_struct (AboutToBeShownEvent_fields BBox Point))).
  assert (Hn : 20 ≤ n) by (unfold n; simpl; lia).
  destruct (decide (length pb < n)) as [Hlt|Hge].
  { rewrite (from_poll_block_short _ (AboutToBeShownEvent_fields BBox Point))
      in Ho by done. discriminate. }
  rewrite (from_poll_block_long _ (AboutToBeShownEvent_fields BBox Point))
    in Ho by (done || lia).
  injection Ho as <-. fold n.
  assert (Hst : field_of
                  {| ob_class := AboutToBeShownEvent BBox Point;
                     ob_mem := take n pb |} "show_type"
                = Ok (VInt (le_uint (take 4 (drop 16 pb))))).
  { unfold field_of, getattr_fields. simpl. unfold read_value. simpl sizeof.
    do 2 f_equal. f_equal.
    rewrite !take_drop_commute, take_take. by rewrite Nat.min_l by lia. }
  split; [done|].
  intros prop attr Hin.
  by apply (conditional_fields BBox Point (take n pb) _ Hst prop attr).
Qed.

Lemma conditional_fields_decoded_witness :
  behind
    {| ob_class := AboutToBeShownEvent c_int32 c_int32;
       ob_mem := replicate 16 x00 ++ [x01; x00; x00; x00] ++ replicate 24 x02 |}
  = Ok (Some (VInt 33686018)).
Proof.
  destruct (conditional_fields_decoded c_int32 c_int32
              (replicate 16 x00 ++ [x01; x00; x00; x00] ++ replicate 24 x02)
              {| ob_class := AboutToBeShownEvent c_int32 c_int32;
                 ob_mem := replicate 16 x00 ++ [x01; x00; x00; x00]
                           ++ replicate 24 x02 |}
              eq_refl) as [_ H].
  destruct (H behind "_behind" ltac:(apply elem_of_cons; by left))
    as (v & Hv & Hb).
  rewrite Hb. vm_compute in Hv. injection Hv as <-. reflexivity.
Defined.

(** ** The set of object ids *)

Lemma walk_add (n m : nat) (s : Z * Z) :
  Probe.walk (n + m) s = Probe.walk m (Probe.walk n s).
Proof. revert s. induction n as [|n IH]; intros s; simpl; [done | apply IH]. Qed.

Lemma walk_perturb (n : nat) (s : Z * Z) :
  (Probe.walk n s).2 = Z.shiftr s.2 (5 * Z.of_nat n).
Proof.
  revert s. induction n as [|n IH]; intros s.
  - simpl. by rewrite Z.shiftr_0_r.
  - cbn [Probe.walk]. rewrite IH. unfold Probe.next, PySet.PERTURB_SHIFT. simpl.
    rewrite Z.shiftr_shiftr by lia. f_equal. lia.
Qed.

Lemma land_mask_range (x : Z) : (0 ≤ Z.land x PySet.mask < 8)%Z.
Proof.
  change PySet.mask with (Z.ones 3). rewrite Z.land_ones by lia.
  apply Z.mod_pos_bound. lia.
Qed.

Lemma walk_slot_range (n : nat) (s : Z * Z) :
  (0 ≤ s.1 < 8)%Z -> (0 ≤ (Probe.walk n s).1 < 8)%Z.
Proof.
  revert s. induction n as [|n IH]; intros s Hs; simpl; [done|].
  apply IH. unfold Probe.next. simpl. apply land_mask_range.
Qed.

Lemma slot_range (key : Z) (n : nat) : Probe.slot key n < 8.
Proof.
  unfold Probe.slot.
  pose proof (walk_slot_range n (Probe.start key) (land_mask_range _)). lia.
Qed.

(** Once [perturb] is used up the sequence visits every slot within eight
    steps. *)
Lemma walk_covers (i j : Z) :
  (0 ≤ i < 8)%Z -> (0 ≤ j < 8)%Z ->
  exists t, t < 8 /\ (Probe.walk t (i, 0%Z)).1 = j.
Proof.
  intros Hi Hj.
  assert (Hc : forall a b, In a [0;1;2;3;4;5;6;7]%Z -> In b [0;1;2;3;4;5;6;7]%Z ->
            existsb (fun t => Z.eqb (Probe.walk t (a, 0%Z)).1 b) (seq 0 8) = true).
  { intros a b Ha Hb. simpl in Ha, Hb.
    repeat (destruct Ha as [<-|Ha]; [
      repeat (destruct Hb as [<-|Hb]; [vm_compute; reflexivity|]); done|]).
    done. }
  assert (Hin : forall x, (0 ≤ x < 8)%Z -> In x [0;1;2;3;4;5;6;7]%Z).
  { intros x Hx. simpl. lia. }
  specialize (Hc i j (Hin i Hi) (Hin j Hj)).
  apply existsb_exists in Hc as (t & Ht & E).
  exists t. apply in_seq in Ht. split; [lia | by apply Z.eqb_eq].
Qed.

Lemma probe_step (fuel : nat) (key : Z) (s : Z * Z) (tbl : list (option Z)) :
  PySet.probe (S fuel) key s.1 s.2 tbl
  = match tbl !! Z.to_nat s.1 with
    | Some (Some k) =>
        if decide (k = key) then tbl
        else PySet.probe fuel key (Probe.next s).1 (Probe.next s).2 tbl
    | _ => <[Z.to_nat s.1 := Some key]> tbl
    end.
Proof. reflexivity. Qed.

(** What [probe] returns when the first slot of the sequence that is free
    or holds the key is reached within the fuel. *)
Lemma probe_walk (n fuel : nat) (key : Z) (s : Z * Z) (tbl : list (option Z)) :
  n < fuel ->
  (forall m, m < n ->
     exists k', tbl !! Z.to_nat (Probe.walk m s).1 = Some (Some k') /\ k' ≠ key) ->
  (tbl !! Z.to_nat (Probe.walk n s).1 = Some (Some key) ->
   PySet.probe fuel key s.1 s.2 tbl = tbl)
  /\ (tbl !! Z.to_nat (Probe.walk n s).1 = Some None ->
      PySet.probe fuel key s.1 s.2 tbl
      = <[Z.to_nat (Probe.walk n s).1 := Some key]> tbl).
Proof.
  revert fuel s. induction n as [|n IH]; intros fuel s Hf Hbefore.
  - destruct fuel as [|fuel]; [lia|]. rewrite probe_step. simpl.
    split; intros ->; [by rewrite decide_True | done].
  - destruct fuel as [|fuel]; [lia|]. rewrite probe_step.
    destruct (Hbefore 0) as (k' & Hk0 & Hk'); [lia|].
    simpl in Hk0. rewrite Hk0, decide_False by done.
    apply (IH fuel (Probe.next s)); [lia|].
    intros m Hm. apply (Hbefore (S m)). lia.
Qed.

Lemma elem_of_to_list (tbl : list (option Z)) (x : Z) :
  x ∈ PySet.to_list tbl <-> exists j, tbl !! j = Some (Some x).
Proof.
  unfold PySet.to_list. rewrite list_elem_of_omap. split.
  - intros (o & Ho & <-). by apply list_elem_of_lookup in Ho.
  - intros (j & Hj). exists (Some x). split; [|done].
    by apply list_elem_of_lookup_2 in Hj.
Qed.

Lemma free_slot (tbl : list (option Z)) :
  length (PySet.to_list tbl) < length tbl -> exists j, tbl !! j = Some None.
Proof.
  unfold PySet.to_list. induction tbl as [|[x|] tbl IH]; simpl; intros Hlen.
  - lia.
  - destruct IH as [j Hj]; [exact (proj2 (Nat.succ_lt_mono _ _) Hlen)|].
    by exists (S j).
  - by exists 0.
Qed.

Lemma to_list_insert (tbl : list (option Z)) (j : nat) (key : Z) :
  tbl !! j = Some None ->
  exists l1 l2,
    PySet.to_list tbl = l1 ++ l2
    /\ PySet.to_list (<[j := Some key]> tbl) = l1 ++ key :: l2.
Proof.
  intros Hj. unfold PySet.to_list.
  exists (omap id (take j tbl)), (omap id (drop (S j) tbl)).
  rewrite insert_take_drop by (by eapply lookup_lt_Some).
  rewrite <- (take_drop_middle tbl j None Hj) at 1.
  by rewrite !omap_app.
Qed.

(** The first slot of the probe sequence of [key] that is free or holds
    [key] comes within fifteen steps when the table has a free slot. *)
Lemma first_stop (tbl : list (option Z)) (key : Z) :
  length tbl = 8 -> (exists j, tbl !! j = Some None) ->
  exists n, n < 15
    /\ (tbl !! Probe.slot key n = Some None
        \/ tbl !! Probe.slot key n = Some (Some key))
    /\ forall m, m < n ->
         exists k', tbl !! Probe.slot key m = Some (Some k') /\ k' ≠ key.
Proof.
  intros Hlen [j Hj].
  assert (Hsome : exists n, n < 15 /\ tbl !! Probe.slot key n = Some None).
  { pose proof (lookup_lt_Some _ _ _ Hj) as Hj8. rewrite Hlen in Hj8.
    pose proof (walk_slot_range 7 (Probe.start key) (land_mask_range _)) as Hr.
    assert (Hp : (Probe.walk 7 (Probe.start key)).2 = 0%Z).
    { rewrite walk_perturb. unfold Probe.start. simpl fst. simpl snd.
      rewrite Z.shiftr_div_pow2 by lia. apply Z.div_small.
      pose proof (Z.mod_pos_bound (PySet.hash key) (2 ^ PySet.ssize_bits)
                    ltac:(done)) as Hb.
      change (2 ^ PySet.ssize_bits)%Z with 4294967296%Z in *.
      change (2 ^ (5 * Z.of_nat 7))%Z with 34359738368%Z. lia. }
    destruct (walk_covers (Probe.walk 7 (Probe.start key)).1 (Z.of_nat j))
      as (t & Ht & E); [done | lia |].
    exists (7 + t). split; [lia|].
    unfold Probe.slot. rewrite walk_add.
    destruct (Probe.walk 7 (Probe.start key)) as [i7 p7]. simpl in *. subst p7.
    rewrite E. by rewrite Nat2Z.id. }
  clear j Hj. destruct Hsome as (n0 & Hn0 & Hfree).
  assert (Hleast : forall n, n ≤ 15 ->
            (exists n', n' < n
               /\ (tbl !! Probe.slot key n' = Some None
                   \/ tbl !! Probe.slot key n' = Some (Some key))
               /\ forall m, m < n' ->
                    exists k', tbl !! Probe.slot key m = Some (Some k') /\ k' ≠ key)
            \/ forall m, m < n ->
                 exists k', tbl !! Probe.slot key m = Some (Some k') /\ k' ≠ key).
  { induction n as [|n IH]; intros Hn; [right; intros m Hm; lia|].
    destruct IH as [(n' & Hn' & H)|Hall]; [lia| |].
    - left. exists n'. split; [lia | done].
    - destruct (lookup_lt_is_Some_2 tbl (Probe.slot key n)) as [x Hx].
      { rewrite Hlen. apply slot_range. }
      destruct x as [k'|].
      + destruct (decide (k' = key)) as [->|Hne].
        * left. exists n. split; [lia|]. split; [by right | done].
        * right. intros m Hm. destruct (decide (m = n)) as [->|];
            [by exists k' | apply Hall; lia].
      + left. exists n. split; [lia|]. split; [by left | done]. }
  destruct (Hleast 15) as [(n' & Hn' & H)|Hall]; [lia| |].
  - by exists n'.
  - destruct (Hall n0 Hn0) as (k' & Hk' & _). congruence.
Qed.

(** Adding a key to a well-formed table with a free slot. *)
Lemma add_well_formed (tbl : list (option Z)) (key : Z) :
  Probe.well_formed tbl -> NoDup (PySet.to_list tbl) ->
  length (PySet.to_list tbl) < 8 ->
  Probe.well_formed (PySet.add key tbl)
  /\ NoDup (PySet.to_list (PySet.add key tbl))
  /\ (forall x, x ∈ PySet.to_list (PySet.add key tbl)
                <-> x = key \/ x ∈ PySet.to_list tbl)
  /\ length (PySet.to_list (PySet.add key tbl)) ≤ S (length (PySet.to_list tbl)).
Proof.
  intros [Hlen Hwf] Hnd Hsize.
  destruct (first_stop tbl key Hlen) as (n & Hn & Hstop & Hbefore).
  { apply free_slot. by rewrite Hlen. }
  destruct (probe_walk n 64 key (Probe.start key) tbl) as [Hsame Hnew];
    [lia | exact Hbefore |].
  fold (Probe.slot key n) in Hsame, Hnew.
  change (PySet.probe 64 key (Probe.start key).1 (Probe.start key).2 tbl)
    with (PySet.add key tbl) in Hsame, Hnew.
  destruct Hstop as [Hfree|Hheld].
  - rewrite (Hnew Hfree).
    assert (Hnotin : key ∉ PySet.to_list tbl).
    { intros (j & Hj)%elem_of_to_list.
      destruct (Hwf j key Hj) as (n' & _ & Hslot & Hpre).
      destruct (Nat.lt_trichotomy n' n) as [Hlt|[->|Hgt]].
      - destruct (Hbefore n' Hlt) as (k' & Hk' & Hne). congruence.
      - congruence.
      - destruct (Hpre n Hgt) as (k' & Hk' & _). congruence. }
    destruct (to_list_insert tbl (Probe.slot key n) key Hfree)
      as (l1 & l2 & E1 & E2).
    rewrite E2. rewrite E1 in Hnd, Hnotin, Hsize |- *.
    assert (Hother : forall j k, tbl !! j = Some (Some k) ->
              <[Probe.slot key n := Some key]> tbl !! j = Some (Some k)).
    { intros j k Hj. rewrite list_lookup_insert_ne; [done|]. congruence. }
    split; [|split; [|split]].
    + split; [by rewrite length_insert|].
      intros j k Hj. destruct (decide (j = Probe.slot key n)) as [->|Hne].
      * rewrite list_lookup_insert_eq in Hj by (rewrite Hlen; apply slot_range).
        injection Hj as <-. exists n. split; [lia|]. split; [done|].
        intros m Hm. destruct (Hbefore m Hm) as (k' & Hk' & Hne').
        exists k'. split; [by apply Hother | done].
      * rewrite list_lookup_insert_ne in Hj by done.
        destruct (Hwf j k Hj) as (n' & Hn' & Hslot & Hpre).
        exists n'. split; [done|]. split; [done|].
        intros m Hm. destruct (Hpre m Hm) as (k' & Hk' & Hne').
        exists k'. split; [by apply Hother | done].
    + apply NoDup_app in Hnd as (Hnd1 & Hdisj & Hnd2).
      rewrite elem_of_app in Hnotin.
      apply NoDup_app. split; [done|]. split.
      * intros x Hx [->|Hx2]%elem_of_cons; [tauto | by apply (Hdisj x)].
      * apply NoDup_cons. split; [tauto | done].
    + intros x. rewrite !elem_of_app, elem_of_cons. tauto.
    + rewrite !length_app in *. simpl. lia.
  - rewrite (Hsame Hheld). split; [done|]. split; [done|]. split; [|lia].
    intros x. split; [by right|]. intros [->|?]; [|done].
    apply elem_of_to_list. by eexists.
Qed.

Lemma empty_well_formed :
  Probe.well_formed PySet.empty /\ PySet.to_list PySet.empty = [].
Proof.
  split; [|reflexivity]. split; [reflexivity|].
  intros j k Hj. unfold PySet.empty in Hj.
  apply lookup_replicate_1 in Hj as [Hj _]. discriminate.
Qed.

(** A set built from at most seven integers holds each of them once. *)
Lemma of_list_elements (l : list Z) :
  length l ≤ 7 ->
  NoDup (PySet.to_list (PySet.of_list l))
  /\ forall x, x ∈ PySet.to_list (PySet.of_list l) <-> x ∈ l.
Proof.
  unfold PySet.of_list.
  assert (H : forall tbl,
            Probe.well_formed tbl -> NoDup (PySet.to_list tbl) ->
            length (PySet.to_list tbl) + length l ≤ 7 ->
            NoDup (PySet.to_list (fold_left (fun tbl key => PySet.add key tbl) l tbl))
            /\ forall x,
                 x ∈ PySet.to_list (fold_left (fun tbl key => PySet.add key tbl) l tbl)
                 <-> x ∈ l \/ x ∈ PySet.to_list tbl).
  { induction l as [|key l IH]; intros tbl Hwf Hnd Hsize; simpl.
    - split; [done|]. intros x. rewrite elem_of_nil. tauto.
    - simpl in Hsize.
      destruct (add_well_formed tbl key Hwf Hnd) as (Hwf' & Hnd' & Hel & Hlen);
        [lia|].
      destruct (IH (PySet.add key tbl) Hwf' Hnd') as [Hnd'' Hel'']; [lia|].
      split; [done|]. intros x. rewrite Hel'', Hel, elem_of_cons. tauto. }
  intros Hlen. destruct empty_well_formed as [Hwf He].
  destruct (H PySet.empty Hwf) as [Hnd Hel].
  - rewrite He. constructor.
  - rewrite He. simpl. lia.
  - split; [done|]. intros x. rewrite Hel, He, elem_of_nil. tauto.
Qed.

(** X16: the candidates of [_get_spaa] are the objects of a duplicate-free
    enumeration of the self, parent and ancestor ids - each id that occurs
    is looked up exactly once, whatever ids coincide, and ids without an
    object are skipped - followed by the application object when there is
    one. *)
Theorem get_spaa_candidates (get_object : Z -> option EventHandler.t)
    (application : option EventHandler.t) (id_block : IdBlock) :
  exists ids,
    _get_spaa get_object application id_block
    = omap get_object ids ++ option_list application
    /\ NoDup ids
    /\ forall x,
         x ∈ ids
         <-> x ∈ [obj_id (ib_self id_block); obj_id (ib_parent id_block);
                  obj_id (ib_ancestor id_block)].
Proof.
  destruct (of_list_elements
              [obj_id (ib_self id_block); obj_id (ib_parent id_block);
               obj_id (ib_ancestor id_block)]) as [Hnd Hel]; [simpl; lia|].
  eexists. split; [|split; [exact Hnd | exact Hel]].
  unfold _get_spaa. by destruct application.
Qed.

(** ** What the result of [_dispatch] tells *)

(** X17: [_dispatch] returns [False] exactly when the object has no entry
    at all for the event, and then calls nothing.  When it falls off its end
    (the result is [None]) every handler listed for the component of the
    event and then every wildcard handler was called, once each and in the
    order of the lists, and each returned [False]. *)
Theorem dispatch_declined_by_all (self : EventHandler.t) (tbl : table) (e : Z)
    (idb : IdBlock) (pb : list byte) :
  ((EventHandler._dispatch self tbl e idb pb).2 = Ok (Some false)
   <-> Dict.get (Some e) tbl = None)
  /\ (Dict.get (Some e) tbl = None ->
      (EventHandler._dispatch self tbl e idb pb).1 = [])
  /\ ((EventHandler._dispatch self tbl e idb pb).2 = Ok None ->
      map c_handler (EventHandler._dispatch self tbl e idb pb).1
      = entry_names (entries (Some e) (Some (component (ib_self idb))) tbl)
        ++ entry_names (entries (Some e) None tbl)
      /\ continues (EventHandler._dispatch self tbl e idb pb).1).
Proof.
  unfold EventHandler._dispatch, entries.
  destruct (Dict.get (Some e) tbl) as [hs|]; simpl; [|done].
  set (l1 := match Dict.get (Some (component (ib_self idb))) hs with
             | Some l => l | None => [] end).
  set (l2 := match Dict.get None hs with Some l => l | None => [] end).
  assert (E1 : match Dict.get (Some (component (ib_self idb))) hs with
               | Some l => EventHandler.try_handlers self e idb pb l
               | None => ([], Ok false)
               end = EventHandler.try_handlers self e idb pb l1).
  { unfold l1. by destruct (Dict.get (Some _) hs). }
  assert (E2 : match Dict.get None hs with
               | Some l => EventHandler.try_handlers self e idb pb l
               | None => ([], Ok false)
               end = EventHandler.try_handlers self e idb pb l2).
  { unfold l2. by destruct (Dict.get None hs). }
  rewrite E1, E2. clear E1 E2.
  pose proof (try_handlers_trace self e idb pb l1) as H1.
  pose proof (try_handlers_trace self e idb pb l2) as H2.
  destruct (EventHandler.try_handlers self e idb pb l1) as [tr1 r1].
  destruct (EventHandler.try_handlers self e idb pb l2) as [tr2 r2].
  simpl in *. destruct H1 as [_ Ho1], H2 as [_ Ho2].
  destruct r1 as [[|]|err1]; simpl.
  - split; [split; discriminate|]. split; [discriminate | discriminate].
  - destruct r2 as [[|]|err2]; simpl.
    + split; [split; discriminate|]. split; discriminate.
    + destruct Ho1 as [Hc1 Hn1], Ho2 as [Hc2 Hn2].
      split; [split; discriminate|]. split; [discriminate|]. intros _.
      split; [by rewrite map_app, Hn1, Hn2 | by apply continues_app].
    + split; [split; discriminate|]. split; discriminate.
  - split; [split; discriminate|]. split; discriminate.
Qed.

Lemma dispatch_declined_by_all_witness :
  map c_handler
    (EventHandler._dispatch Example.b (EventHandler.toolbox_handlers Example.b)
       6 Example.id_block []).1
  = ["B.on6"; "A.on6"].
Proof.
  apply (proj2 (proj2 (dispatch_declined_by_all Example.b
                         (EventHandler.toolbox_handlers Example.b) 6
                         Example.id_block []))).
  reflexivity.
Defined.

(** ** Event classes that cannot be decoded or looked up *)

Lemma try_handlers_undecodable (self : EventHandler.t) (e : Z) (idb : IdBlock)
    (pb : list byte) (l : list reg_entry) (h : handler) (cls : pyclass)
    (err : exn) :
  from_poll_block cls pb = Raise err ->
  Pair h (Some cls) ∈ l ->
  (EventHandler.try_handlers self e idb pb l).2 ≠ Ok false.
Proof.
  intros Herr. induction l as [|[h' t|h'] l IH]; simpl.
  - by intros ?%elem_of_nil.
  - rewrite elem_of_cons. intros [E|Hin].
    + injection E as <- <-. simpl. by rewrite Herr.
    + destruct (EventHandler._data t pb) as [d|err']; [|done].
      destruct (is_not_False _); [done|].
      specialize (IH Hin).
      by destruct (EventHandler.try_handlers self e idb pb l).
  - done.
Qed.

(** X18: an event class that is not a [ctypes.Structure] cannot be decoded
    from any poll block.  A handler registered with such a class makes
    [_dispatch] unable to pass over its entry: an event that selects the
    entry's list is either handled by a handler tried before it, or the
    dispatch ends in an exception. *)
Theorem non_structure_class_blocks (self : EventHandler.t) (tbl : table)
    (e : Z) (idb : IdBlock) (pb : list byte) (h : handler) (cls : pyclass) :
  struct_fields cls = None ->
  Pair h (Some cls) ∈ entries (Some e) (Some (component (ib_self idb))) tbl
  \/ Pair h (Some cls) ∈ entries (Some e) None tbl ->
  from_poll_block cls pb
  = Raise (RuntimeError ("from_block not implemented for " +:+ name cls))
  /\ ((EventHandler._dispatch self tbl e idb pb).2 = Ok (Some true)
      \/ exists err, (EventHandler._dispatch self tbl e idb pb).2 = Raise err).
Proof.
  intros Hcls Hin.
  assert (Herr : from_poll_block cls pb
                 = Raise (RuntimeError ("from_block not implemented for "
                                        +:+ name cls))).
  { unfold from_poll_block. by rewrite Hcls. }
  split; [done|].
  revert Hin. unfold entries, EventHandler._dispatch.
  destruct (Dict.get (Some e) tbl) as [hs|];
    [|intros [?%elem_of_nil|?%elem_of_nil]; done].
  intros Hin.
  destruct (Dict.get (Some (component (ib_self idb))) hs) as [l1|] eqn:E1.
  - pose proof (try_handlers_undecodable self e idb pb l1 h cls _ Herr) as H1.
    destruct (EventHandler.try_handlers self e idb pb l1) as [tr1 r1].
    simpl in H1. destruct r1 as [[|]|err]; simpl; [by left| |right; by eexists].
    destruct Hin as [Hin|Hin]; [by destruct (H1 Hin)|].
    destruct (Dict.get None hs) as [l2|]; [|by apply elem_of_nil in Hin].
    pose proof (try_handlers_undecodable self e idb pb l2 h cls _ Herr Hin) as H2.
    destruct (EventHandler.try_handlers self e idb pb l2) as [tr2 r2].
    simpl in *. destruct r2 as [[|]|err]; [by left|done|right; by eexists].
  - destruct Hin as [Hin|Hin]; [by apply elem_of_nil in Hin|].
    destruct (Dict.get None hs) as [l2|]; [|by apply elem_of_nil in Hin].
    pose proof (try_handlers_undecodable self e idb pb l2 h cls _ Herr Hin) as H2.
    destruct (EventHandler.try_handlers self e idb pb l2) as [tr2 r2].
    simpl in *. destruct r2 as [[|]|err]; [by left|done|right; by eexists].
Qed.

Lemma non_structure_class_blocks_witness :
  (EventHandler._dispatch Example2.v (EventHandler.toolbox_handlers Example2.v)
     12 Example.id_block [x01; x02; x03]).2
  = Raise (RuntimeError "from_block not implemented for Plain").
Proof.
  assert (Hin : Pair Example2.plain_handler (Some Example2.Plain)
                ∈ entries (Some 12%Z) None
                    (EventHandler.toolbox_handlers Example2.v)).
  { apply elem_of_cons. by left. }
  destruct (non_structure_class_blocks Example2.v
              (EventHandler.toolbox_handlers Example2.v) 12 Example.id_block
              [x01; x02; x03] Example2.plain_handler Example2.Plain eq_refl
              (or_intror Hin)) as [_ [H|[err H]]].
  - vm_compute in H. discriminate.
  - reflexivity.
Defined.

Lemma get_append_handler (e ev c : option Z) (h : reg_entry) (tbl tbl' : table) :
  Dict.get e tbl = Dict.get e tbl' ->
  Dict.get e (EventHandler.append_handler ev c h tbl)
  = Dict.get e (EventHandler.append_handler ev c h tbl').
Proof.
  intros Hget. unfold EventHandler.append_handler.
  destruct (decide (ev = e)) as [->|Hne].
  - rewrite <- Hget. destruct (Dict.get e tbl) as [by_comp|];
      [destruct (Dict.get c by_comp)|]; by rewrite !get_set_eq.
  - destruct (Dict.get ev tbl) as [by_comp|];
      [destruct (Dict.get c by_comp)|];
      (destruct (Dict.get ev tbl') as [by_comp'|];
         [destruct (Dict.get c by_comp')|]);
      by rewrite !get_set_ne.
Qed.

Lemma get_append_handler_other (e ev c : option Z) (h : reg_entry) (tbl : table) :
  ev ≠ e ->
  Dict.get e (EventHandler.append_handler ev c h tbl) = Dict.get e tbl.
Proof.
  intros Hne. unfold EventHandler.append_handler.
  destruct (Dict.get ev tbl) as [by_comp|]; [destruct (Dict.get c by_comp)|];
    by rewrite get_set_ne.
Qed.

Lemma get_build_handlers (e : option Z) (reg : registry) (tbl tbl' : table)
    (k : string) :
  Dict.get e tbl = Dict.get e tbl' ->
  Dict.get e (EventHandler._build_handlers reg tbl k)
  = Dict.get e (EventHandler._build_handlers reg tbl' k).
Proof.
  unfold EventHandler._build_handlers. revert tbl tbl'.
  induction reg as [|[ev hm] reg IH]; intros tbl tbl' Hget; simpl; [done|].
  apply IH. destruct (Dict.get (Some k) hm) as [by_comp|]; [|done].
  revert tbl tbl' Hget. induction by_comp as [|[c h] by_comp IHc];
    intros tbl tbl' Hget; simpl; [done|].
  by apply IHc, get_append_handler.
Qed.

Lemma get_build_handlers_set (e ev : option Z) (reg : registry) (tbl : table)
    (k : string) (hm' : list (option string * list (option Z * reg_entry))) :
  ev ≠ e ->
  Dict.get e (EventHandler._build_handlers (Dict.set ev hm' reg) tbl k)
  = Dict.get e (EventHandler._build_handlers reg tbl k).
Proof.
  intros Hne.
  assert (Hstep : forall hm t,
            Dict.get e
              match Dict.get (Some k) hm with
              | Some by_comp =>
                  fold_left
                    (fun handlers '(component, h) =>
                       EventHandler.append_handler ev component h handlers)
                    by_comp t
              | None => t
              end
            = Dict.get e t).
  { intros hm t. destruct (Dict.get (Some k) hm) as [by_comp|]; [|done].
    revert t. induction by_comp as [|[c h] by_comp IHc]; intros t; simpl; [done|].
    by rewrite IHc, get_append_handler_other. }
  revert tbl. induction reg as [|[e0 hm0] reg IH]; intros tbl.
  - unfold EventHandler._build_handlers. simpl. apply Hstep.
  - simpl. destruct (decide (e0 = ev)) as [->|Hne0].
    + unfold EventHandler._build_handlers. simpl.
      apply (get_build_handlers e reg _ _ k). by rewrite !Hstep.
    + unfold EventHandler._build_handlers in *. simpl. apply IH.
Qed.

Lemma try_handlers_name (self self' : EventHandler.t) (e : Z) (idb : IdBlock)
    (pb : list byte) (l : list reg_entry) :
  EventHandler.obj_name self = EventHandler.obj_name self' ->
  EventHandler.try_handlers self e idb pb l
  = EventHandler.try_handlers self' e idb pb l.
Proof.
  intros Hnm. induction l as [|[h t|h] l IH]; simpl; [done| |done].
  by rewrite Hnm, IH.
Qed.

(** X19: a handler registered with an event class whose [event_id] is
    [None] (as it is for [ToolboxEvent] and [UserMessage] themselves) is
    stored under the key [None], which no event number ever selects: an
    object built after the registration dispatches every toolbox event
    exactly as an object built without it. *)
Theorem no_event_id_never_dispatched (R1 R2 R3 : registry) (cls : pyclass)
    (c : option Z) (h : handler) (nm : string) (mro : list string) (e : Z)
    (idb : IdBlock) (pb : list byte) :
  event_id cls = None ->
  EventHandler.toolbox_dispatch
    (EventHandler.init nm mro (_set_handler (One (CodeEvent cls)) c h R1).1 R2 R3)
    e idb pb
  = EventHandler.toolbox_dispatch (EventHandler.init nm mro R1 R2 R3) e idb pb.
Proof.
  intros Hev.
  set (R1' := (_set_handler (One (CodeEvent cls)) c h R1).1).
  pose proof (init_tables nm mro R1' R2 R3) as Ht'.
  pose proof (init_tables nm mro R1 R2 R3) as Ht.
  cbv zeta in Ht, Ht'. destruct Ht as (Hn & Ht & _), Ht' as (Hn' & Ht' & _).
  assert (Hget : Dict.get (Some e)
                   (EventHandler.toolbox_handlers (EventHandler.init nm mro R1' R2 R3))
                 = Dict.get (Some e)
                     (EventHandler.toolbox_handlers (EventHandler.init nm mro R1 R2 R3))).
  { rewrite Ht, Ht'.
    assert (Hk : forall k t t', Dict.get (Some e) t = Dict.get (Some e) t' ->
              Dict.get (Some e) (EventHandler._build_handlers R1' t k)
              = Dict.get (Some e) (EventHandler._build_handlers R1 t' k)).
    { intros k t t' Htt. rewrite (get_build_handlers _ R1' t t' k Htt).
      unfold R1', _set_handler.
      rewrite (add_handler_valid _ _ None) by (simpl; by rewrite Hev). simpl.
      destruct (Dict.get None R1) as [by_cls|];
        [destruct (Dict.get (rsplit_dot (qualname h)) by_cls)|];
        by apply get_build_handlers_set. }
    assert (Hfold : forall t t',
              Dict.get (Some e) t = Dict.get (Some e) t' ->
              Dict.get (Some e)
                (fold_left (fun t k => EventHandler._build_handlers R1' t k) mro t)
              = Dict.get (Some e)
                  (fold_left (fun t k => EventHandler._build_handlers R1 t k) mro t')).
    { clear Ht Ht' Hn Hn'.
      induction mro as [|k mro IH]; intros t t' Htt; simpl; [done|].
      by apply IH, Hk. }
    by apply Hfold. }
  unfold EventHandler.toolbox_dispatch, EventHandler._dispatch.
  rewrite Hget.
  destruct (Dict.get (Some e)
              (EventHandler.toolbox_handlers (EventHandler.init nm mro R1 R2 R3)))
    as [hs|]; [|reflexivity].
  assert (Htry : forall l,
            EventHandler.try_handlers (EventHandler.init nm mro R1' R2 R3) e idb pb l
            = EventHandler.try_handlers (EventHandler.init nm mro R1 R2 R3) e idb pb l).
  { intros l. apply try_handlers_name. congruence. }
  destruct (Dict.get (Some (component (ib_self idb))) hs),
    (Dict.get None hs); by rewrite ?Htry.
Qed.

Lemma no_event_id_never_dispatched_witness :
  EventHandler.toolbox_dispatch
    (EventHandler.init "b" ["B"; "A"; "EventHandler"; "object"]
       (_set_handler (One (CodeEvent ToolboxEvent)) None
          (Example.returning "B.any" RNone) Example._toolbox_handlers).1 [] [])
    5 Example.id_block []
  = EventHandler.toolbox_dispatch Example.b 5 Example.id_block [].
Proof.
  apply (no_event_id_never_dispatched Example._toolbox_handlers [] []
           ToolboxEvent None (Example.returning "B.any" RNone) "b"
           ["B"; "A"; "EventHandler"; "object"] 5 Example.id_block [] eq_refl).
Defined.
